(** * Heatnostics: the heatmap analysis script [analyze_heatmaps.py]

    A shallow embedding of [analyze_heatmaps] and of the pandas operations it
    calls, followed by the properties of the analysis.

    Modelling conventions.
    - Console output is the list of printed lines; an uncaught Python
      exception is the [Raise] result of the [IO] computation.
    - The file system maps a path to the table [pd.read_csv] builds from the
      file at this path; a path that is not mapped has no file.
    - Numbers are exact rationals ([Q]): the binary64 rounding of pandas and
      of Python's [/] and [:.2f] is not modelled.
    - The parser that [pd.to_numeric] applies to text is a parameter
      ([parse_float]) of the analysis: every result holds for any parser.
      [decimal] is a small concrete one, used in the examples. *)

From Stdlib Require Import QArith Lqa Ascii.
From stdpp Require Import gmap strings list sorting pretty.

Close Scope Q_scope.

(** ** Exceptions, results and console output *)

Inductive exn :=
  | FileNotFoundError
  | KeyError (labels : list string)
  | ZeroDivisionError.

Inductive result (A : Type) :=
  | Ok (a : A)
  | Raise (e : exn).
Arguments Ok {A} a.
Arguments Raise {A} e.

#[global] Instance result_ret : MRet result := λ A a, Ok a.
#[global] Instance result_bind : MBind result := λ A B k r,
  match r with
  | Ok a => k a
  | Raise e => Raise e
  end.

(** A computation that prints lines and then returns or raises. *)
Definition IO (A : Type) : Type := (list string * result A)%type.

#[global] Instance IO_ret : MRet IO := λ A a, ([], Ok a).
#[global] Instance IO_bind : MBind IO := λ A B k m,
  match m with
  | (out, Ok a) => let '(out', r) := k a in (out ++ out', r)
  | (out, Raise e) => (out, Raise e)
  end.

Definition print (line : string) : IO unit := ([line], Ok tt).
Definition lift {A} (r : result A) : IO A := ([], r).

Definition stdout {A} (m : IO A) : list string := m.1.
Definition outcome {A} (m : IO A) : result A := m.2.

(** ** Tables *)

(** A cell of a table as [read_csv] delivers it: a missing value, a number,
    or text. *)
Inductive cell :=
  | NaN
  | Num (x : Q)
  | Str (s : string).

#[global] Instance Q_eq_dec : EqDecision Q.
Proof. solve_decision. Defined.
#[global] Instance cell_eq_dec : EqDecision cell.
Proof. solve_decision. Defined.

#[global] Instance Qlt_dec (x y : Q) : Decision (x < y)%Q.
Proof.
  destruct (Qlt_le_dec x y) as [H|H]; [by left|right].
  by apply Qle_not_lt.
Defined.

Definition Series := list cell.

(** A table: the column labels, and the rows in file order.  The cell of a
    row in a column is the cell at the column's position; a row that is too
    short has missing values there. *)
Record DataFrame := {
  columns : list string;
  rows : list (list cell)
}.

Definition isna (c : cell) : bool :=
  match c with NaN => true | _ => false end.

Fixpoint get_loc (labels : list string) (label : string) : option nat :=
  match labels with
  | [] => None
  | l :: labels' =>
      if String.eqb l label then Some 0 else S <$> get_loc labels' label
  end.

Definition iat (row : list cell) (i : nat) : cell := default NaN (row !! i).

(** The labels of [subset] that are no column of the table. *)
Definition missing (cols subset : list string) : list string :=
  filter (λ l, get_loc cols l = None) subset.

(** ** The file system and [pd.read_csv] *)

Definition read_csv (fs : gmap string DataFrame) (file_path : string)
    : result DataFrame :=
  match fs !! file_path with
  | Some df => Ok df
  | None => Raise FileNotFoundError
  end.

(** ** The pandas operations of the script *)

(** [df.dropna(subset=...)]: a [KeyError] with the absent labels, else the
    rows that have a value in every column of [subset]. *)
Definition notna_at (idx : list nat) (row : list cell) : bool :=
  forallb (λ i, negb (isna (iat row i))) idx.

Definition dropna (df : DataFrame) (subset : list string) : result DataFrame :=
  match missing (columns df) subset with
  | [] =>
      let idx := omap (get_loc (columns df)) subset in
      Ok {| columns := columns df;
            rows := filter (λ r, notna_at idx r = true) (rows df) |}
  | absent => Raise (KeyError absent)
  end.

(** [df[label]] *)
Definition getitem (df : DataFrame) (label : string) : result Series :=
  match get_loc (columns df) label with
  | Some i => Ok ((λ r, iat r i) <$> rows df)
  | None => Raise (KeyError [label])
  end.

(** [df[label] = values], for [values] as long as the table: the column is
    replaced, or added as the last one when the label is new. *)
Definition setitem (df : DataFrame) (label : string) (values : Series)
    : DataFrame :=
  match get_loc (columns df) label with
  | Some i =>
      {| columns := columns df;
         rows := zip_with (λ r v, <[i := v]> r) (rows df) values |}
  | None =>
      {| columns := columns df ++ [label];
         rows := zip_with (λ r v, resize (length (columns df)) NaN r ++ [v])
                          (rows df) values |}
  end.

(** [df.groupby(by)].  The key of a row is the tuple of its values in the
    columns of [by]; equal numbers are one key whatever fraction writes them.
    Rows with a missing value in the key are left out (pandas' default
    [dropna=True]); the groups come in ascending key order (pandas' default
    [sort=True]), each with its rows in table order. *)
Definition key := list cell.

Definition canon (c : cell) : cell :=
  match c with
  | Num x => Num (Qred x)
  | _ => c
  end.

Definition key_of (idx : list nat) (row : list cell) : key :=
  (λ i, canon (iat row i)) <$> idx.

Definition cell_compare (a b : cell) : comparison :=
  match a, b with
  | NaN, NaN => Eq
  | NaN, _ => Lt
  | _, NaN => Gt
  | Num x, Num y => (x ?= y)%Q
  | Num _, Str _ => Lt
  | Str _, Num _ => Gt
  | Str s, Str t => String.compare s t
  end.

Fixpoint key_compare (k1 k2 : key) : comparison :=
  match k1, k2 with
  | [], [] => Eq
  | [], _ :: _ => Lt
  | _ :: _, [] => Gt
  | a :: k1', b :: k2' =>
      match cell_compare a b with
      | Eq => key_compare k1' k2'
      | c => c
      end
  end.

Definition key_le (k1 k2 : key) : Prop := key_compare k1 k2 ≠ Gt.

#[global] Instance key_le_dec : RelDecision key_le.
Proof. intros k1 k2. unfold key_le. apply _. Defined.

Definition groupby (df : DataFrame) (by_ : list string)
    : result (list (key * DataFrame)) :=
  match missing (columns df) by_ with
  | [] =>
      let idx := omap (get_loc (columns df)) by_ in
      let kept := filter (λ r, notna_at idx r = true) (rows df) in
      let keys := merge_sort key_le (remove_dups (key_of idx <$> kept)) in
      Ok ((λ k, (k, {| columns := columns df;
                       rows := filter (λ r, key_of idx r = k) kept |}))
            <$> keys)
  | label :: _ => Raise (KeyError [label])
  end.

(** [values.dropna()] on a numeric column: the numbers, in order. *)
Definition number (c : cell) : option Q :=
  match c with
  | Num x => Some x
  | _ => None
  end.

Definition dropna_series (values : Series) : list Q := omap number values.

(** [x < 50] *)
Definition below_50 (x : Q) : bool :=
  match (x ?= 50)%Q with
  | Lt => true
  | _ => false
  end.

(** ** The counters of the loop over the groups *)

Record counters := Counters {
  total_groups : nat;
  no_cells_below_50_count : nat;
  below_n_threshold_count : nat
}.

#[global] Instance counters_eq_dec : EqDecision counters.
Proof. solve_decision. Defined.

(** [for x in xs: st = body st x], stopping at the first exception. *)
Fixpoint for_each {A St} (body : St → A → result St) (xs : list A) (st : St)
    : result St :=
  match xs with
  | [] => Ok st
  | x :: xs' => st' ← body st x; for_each body xs' st'
  end.

(** [group[score_col].dropna()] *)
Definition valid_scores (group : DataFrame) (score_col : string)
    : result (list Q) :=
  values ← getitem group score_col;
  Ok (dropna_series values).

(** [len(valid_scores[valid_scores < 50]) == 0] *)
Definition no_cells_below_50 (valid_scores : list Q) : bool :=
  let scores_below_50 := filter (λ x, below_50 x = true) valid_scores in
  bool_decide (length scores_below_50 = 0).

(** [len(valid_scores) < threshold_n] *)
Definition below_n_threshold (threshold_n : Z) (valid_scores : list Q) : bool :=
  let n_points := length valid_scores in
  bool_decide (Z.of_nat n_points < threshold_n)%Z.

(** The body of the loop over the groups. *)
Definition visit (score_col : string) (threshold_n : Z)
    (st : counters) (item : key * DataFrame) : result counters :=
  let group := item.2 in
  let total_groups := S (total_groups st) in
  valid_scores ← valid_scores group score_col;
  let no_cells_below_50_count :=
    if no_cells_below_50 valid_scores
    then S (no_cells_below_50_count st) else no_cells_below_50_count st in
  let below_n_threshold_count :=
    if below_n_threshold threshold_n valid_scores
    then S (below_n_threshold_count st) else below_n_threshold_count st in
  Ok (Counters total_groups no_cells_below_50_count below_n_threshold_count).

(** The counters after a group with these valid scores. *)
Definition bump (threshold_n : Z) (st : counters) (vs : list Q) : counters :=
  Counters (S (total_groups st))
    (if no_cells_below_50 vs
     then S (no_cells_below_50_count st) else no_cells_below_50_count st)
    (if below_n_threshold threshold_n vs
     then S (below_n_threshold_count st) else below_n_threshold_count st).

(** ** Arithmetic and formatting of the summary *)

(** [a / b] on two counts. *)
Definition truediv (a b : nat) : result Q :=
  match b with
  | 0 => Raise ZeroDivisionError
  | _ => Ok (inject_Z (Z.of_nat a) / inject_Z (Z.of_nat b))%Q
  end.

(** The nearest integer, ties to the even one. *)
Definition round_half_even (q : Q) : Z :=
  let n := Qnum q in
  let d := Z.pos (Qden q) in
  let fl := (n / d)%Z in
  let twice := (2 * (n mod d))%Z in
  if decide (twice < d)%Z then fl
  else if decide (d < twice)%Z then (fl + 1)%Z
  else if Z.even fl then fl else (fl + 1)%Z.

Definition two_digits (n : Z) : string :=
  if decide (n < 10)%Z then "0" +:+ pretty n else pretty n.

(** [f"{q:.2f}"] *)
Definition format_2f (q : Q) : string :=
  let hundredths := Z.abs (round_half_even (q * 100)%Q) in
  (if decide (Qnum q < 0)%Z then "-" else "")
  +:+ pretty (hundredths / 100)%Z +:+ "." +:+ two_digits (hundredths mod 100)%Z.

(** ["-" * 30] *)
Definition rule : string := String.concat "" (replicate 30 "-").

(** [share * 100], for the share [count / total_groups]. *)
Definition percentage (share : Q) : Q := (share * 100)%Q.

(** The printed lines. *)
Definition loading_line (file_path : string) : string :=
  "Loading data from " +:+ file_path +:+ "...".
Definition not_found_line (file_path : string) : string :=
  "Error: File not found at " +:+ file_path.
Definition grouping_line : string := "Grouping by Highway and County...".
Definition analyzing_line (n : nat) : string :=
  "Analyzing " +:+ pretty n +:+ " heatmaps...".
Definition total_line (total_groups : nat) : string :=
  "Total Heatmaps (Highway-County pairs): " +:+ pretty total_groups.
Definition no_below_50_line (count : nat) (share : Q) : string :=
  "Heatmaps with NO cells with score < 50: " +:+ pretty count
  +:+ " (" +:+ format_2f (percentage share) +:+ "%)".
Definition below_n_line (threshold_n : Z) (count : nat) (share : Q) : string :=
  "Heatmaps with N < " +:+ pretty threshold_n +:+ " (valid points): "
  +:+ pretty count +:+ " (" +:+ format_2f (percentage share) +:+ "%)".

Definition HIGHWAY : string := "TX_SIGNED_HIGHWAY_RDBD_ID".
Definition COUNTY : string := "COUNTY".

(** The defaults of the command line and of the score column. *)
Definition default_file : string := "./PMIS_2024_trimmed.csv".
Definition default_n : Z := 5.
Definition default_score_col : string := "TX_CONDITION_SCORE".

Section Analysis.

(** The text-to-number parser of [pd.to_numeric]. *)
Variable parse_float : string → option Q.

(** [pd.to_numeric(values, errors='coerce')] *)
Definition to_numeric_cell (c : cell) : cell :=
  match c with
  | NaN => NaN
  | Num x => Num x
  | Str s => match parse_float s with Some x => Num x | None => NaN end
  end.

Definition to_numeric (values : Series) : Series :=
  to_numeric_cell <$> values.

(** ** The analysis *)

Definition analyze_heatmaps (fs : gmap string DataFrame) (file_path : string)
    (threshold_n : Z) (score_col : string) : IO unit :=
  print (loading_line file_path);;
  match read_csv fs file_path with
  | Raise FileNotFoundError => print (not_found_line file_path)
  | Raise e => lift (Raise e)
  | Ok df =>
      df ← lift (dropna df [HIGHWAY; COUNTY]);
      values ← lift (getitem df score_col);
      let df := setitem df score_col (to_numeric values) in
      print grouping_line;;
      grouped ← lift (groupby df [HIGHWAY; COUNTY]);
      print (analyzing_line (length grouped));;
      st ← lift (for_each (visit score_col threshold_n) grouped
                   (Counters 0 0 0));
      print rule;;
      print (total_line (total_groups st));;
      share ← lift (truediv (no_cells_below_50_count st) (total_groups st));
      print (no_below_50_line (no_cells_below_50_count st) share);;
      share ← lift (truediv (below_n_threshold_count st) (total_groups st));
      print (below_n_line threshold_n (below_n_threshold_count st) share);;
      print rule
  end.

(** The script run from the command line, with [--file] and [--n] given or
    left out; the score column is always the default one. *)
Definition main (fs : gmap string DataFrame) (file : option string)
    (n : option Z) : IO unit :=
  analyze_heatmaps fs (default default_file file) (default default_n n)
    default_score_col.

(** The lines of the summary, up to the first division by zero. *)
Definition summary (threshold_n : Z) (st : counters) : IO unit :=
  print rule;;
  print (total_line (total_groups st));;
  share ← lift (truediv (no_cells_below_50_count st) (total_groups st));
  print (no_below_50_line (no_cells_below_50_count st) share);;
  share ← lift (truediv (below_n_threshold_count st) (total_groups st));
  print (below_n_line threshold_n (below_n_threshold_count st) share);;
  print rule.

(** The stages of a run on a loaded table, as [analyze_heatmaps] chains
    them: the cleaned table, the groups, the counters after the loop. *)
Definition cleaned (df : DataFrame) (score_col : string) : result DataFrame :=
  df ← dropna df [HIGHWAY; COUNTY];
  values ← getitem df score_col;
  Ok (setitem df score_col (to_numeric values)).

Definition heatmaps (df : DataFrame) (score_col : string)
    : result (list (key * DataFrame)) :=
  df ← cleaned df score_col;
  groupby df [HIGHWAY; COUNTY].

Definition tally (df : DataFrame) (threshold_n : Z) (score_col : string)
    : result counters :=
  grouped ← heatmaps df score_col;
  for_each (visit score_col threshold_n) grouped (Counters 0 0 0).

(** ** The stages in closed form

    What the stages compute on a table that has the columns: the coerced
    row, the valid scores of a list of rows, the group of a key, the sorted
    keys, and the rows that reach the groups. *)
Definition coerce (i : nat) (row : list cell) : list cell :=
  <[i := to_numeric_cell (iat row i)]> row.

Definition scores (i : nat) (rws : list (list cell)) : list Q :=
  dropna_series ((λ r, iat r i) <$> rws).

Definition group_at (cols : list string) (idx : list nat)
    (rws : list (list cell)) (k : key) : key * DataFrame :=
  (k, {| columns := cols; rows := filter (λ r, key_of idx r = k) rws |}).

Definition keys_of (idx : list nat) (rws : list (list cell)) : list key :=
  merge_sort key_le (remove_dups (key_of idx <$> rws)).

Definition grouped_rows (ih ic isc : nat) (rws : list (list cell))
    : list (list cell) :=
  filter (λ r, notna_at [ih; ic] r = true)
    (coerce isc <$> filter (λ r, notna_at [ih; ic] r = true) rws).

(** The valid scores of the groups of a table, group by group. *)
Definition group_scores (ih ic isc : nat) (rws : list (list cell))
    : list (list Q) :=
  (λ k, scores isc (filter (λ r, key_of [ih; ic] r = k)
                      (grouped_rows ih ic isc rws)))
    <$> keys_of [ih; ic] (grouped_rows ih ic isc rws).

(** A cell of a numeric column. *)
Definition no_text (c : cell) : Prop :=
  match c with Str _ => False | _ => True end.

(** The value of a row in a column; missing when there is no such column. *)
Definition value (cols : list string) (row : list cell) (label : string)
    : cell :=
  match get_loc cols label with
  | Some i => iat row i
  | None => NaN
  end.

(** The exception of the cleaning stage on a table that lacks a column. *)
Definition cleaned_error (cols : list string) (score_col : string) : exn :=
  match missing cols [HIGHWAY; COUNTY] with
  | [] => KeyError [score_col]
  | absent => KeyError absent
  end.

End Analysis.

(** ** A parser of decimal integers, for the examples *)

Definition digit (a : ascii) : option Z :=
  let n := Z.of_nat (nat_of_ascii a) in
  if decide (48 ≤ n ≤ 57)%Z then Some (n - 48)%Z else None.

Fixpoint digits (acc : Z) (s : string) : option Z :=
  match s with
  | EmptyString => Some acc
  | String a s' => d ← digit a; digits (10 * acc + d)%Z s'
  end.

(** A run of digits with an optional minus sign, as a number. *)
Definition decimal (s : string) : option Q :=
  match s with
  | EmptyString => None
  | String "-"%char (String a s') => inject_Z <$> (Z.opp <$> digits 0 (String a s'))
  | _ => inject_Z <$> digits 0 s
  end.

(** ** Sample tables *)

Definition ex_columns : list string := [HIGHWAY; COUNTY; default_score_col].

(** Two heatmaps, a row without county, a score that is no number. *)
Definition ex_table : DataFrame :=
  {| columns := ex_columns;
     rows := [ [Str "IH0035"; Str "BEXAR"; Num 10];
               [Str "IH0035"; Str "BEXAR"; Num 60];
               [Str "IH0035"; NaN; Num 60];
               [Str "IH0010"; Str "BEXAR"; Str "n/a"];
               [Str "IH0010"; Str "BEXAR"; Str "50"] ] |}.

Definition ex_groups : list (key * DataFrame) :=
  [ ([Str "IH0010"; Str "BEXAR"],
     {| columns := ex_columns;
        rows := [ [Str "IH0010"; Str "BEXAR"; NaN];
                  [Str "IH0010"; Str "BEXAR"; Num 50] ] |});
    ([Str "IH0035"; Str "BEXAR"],
     {| columns := ex_columns;
        rows := [ [Str "IH0035"; Str "BEXAR"; Num 10];
                  [Str "IH0035"; Str "BEXAR"; Num 60] ] |}) ].

(** The only row has no county. *)
Definition ex_keyless : DataFrame :=
  {| columns := ex_columns; rows := [ [Str "IH0035"; NaN; Num 60] ] |}.

(** No score column. *)
Definition ex_no_score : DataFrame :=
  {| columns := [HIGHWAY; COUNTY];
     rows := [ [Str "IH0035"; Str "BEXAR"] ] |}.

Definition ex_fs : gmap string DataFrame :=
  {[ "a.csv" := ex_table;
     "keyless.csv" := ex_keyless;
     "noscore.csv" := ex_no_score ]}.

(** The sample table with its columns in another order and a column more. *)
Definition ex_wide : DataFrame :=
  {| columns := ["YEAR"; default_score_col; COUNTY; HIGHWAY];
     rows := [ [Num 2024; Num 10; Str "BEXAR"; Str "IH0035"];
               [Num 2024; Num 60; Str "BEXAR"; Str "IH0035"];
               [Num 2023; Num 60; NaN; Str "IH0035"];
               [Num 2023; Str "n/a"; Str "BEXAR"; Str "IH0010"];
               [Num 2022; Str "50"; Str "BEXAR"; Str "IH0010"] ] |}.


(** The scenarios of the specification: one heatmap with scores 10 and 60,
    one with 60 and 70, one with a score that is no number. *)
Definition scenario (scores : list cell) : gmap string DataFrame :=
  {[ "s.csv" := {| columns := ex_columns;
                   rows := (λ c, [Str "IH0035"; Str "BEXAR"; c]) <$> scores |} ]}.

(** * Properties *)

(** ** Column lookup *)

Lemma get_loc_lookup cols label i :
  get_loc cols label = Some i → cols !! i = Some label.
Proof.
  revert i. induction cols as [|l cols IH]; intros i; simpl; [done|].
  destruct (String.eqb_spec l label) as [->|Hne].
  - by intros [= <-].
  - destruct (get_loc cols label) as [j|]; simpl; [|done].
    intros [= <-]. by apply IH.
Qed.

Lemma get_loc_inj cols l1 l2 i :
  get_loc cols l1 = Some i → get_loc cols l2 = Some i → l1 = l2.
Proof.
  intros H1%get_loc_lookup H2%get_loc_lookup. congruence.
Qed.

Lemma missing_nil cols subset :
  missing cols subset = [] ↔ ∀ l, l ∈ subset → is_Some (get_loc cols l).
Proof.
  unfold missing. induction subset as [|a subset IH].
  - split; [|done]. intros _ l Hl. by apply elem_of_nil in Hl.
  - rewrite filter_cons. destruct (decide _) as [Ha|Ha].
    + split; [done|]. intros H. destruct (H a) as [i Hi]; [by left|congruence].
    + rewrite IH. apply not_eq_None_Some in Ha. split.
      * intros H l [->|Hl]%elem_of_cons; auto.
      * intros H l Hl. apply H. by right.
Qed.

(** ** The stages of a run, in closed form *)

Section Stages.

Variable parse_float : string → option Q.


Lemma setitem_coerce cols rws label i :
  get_loc cols label = Some i →
  setitem {| columns := cols; rows := rws |} label
    (to_numeric parse_float ((λ r, iat r i) <$> rws))
  = {| columns := cols; rows := coerce parse_float i <$> rws |}.
Proof.
  intros Hi. unfold setitem, to_numeric; simpl. rewrite Hi. f_equal.
  rewrite <- list_fmap_compose, zip_with_fmap_r, zip_with_diag.
  done.
Qed.

Lemma dropna_present df subset :
  missing (columns df) subset = [] →
  dropna df subset
  = Ok {| columns := columns df;
          rows := filter (λ r, notna_at (omap (get_loc (columns df)) subset) r
                               = true) (rows df) |}.
Proof. intros H. unfold dropna. by rewrite H. Qed.

Lemma groupby_present df by_ :
  missing (columns df) by_ = [] →
  groupby df by_
  = let idx := omap (get_loc (columns df)) by_ in
    let kept := filter (λ r, notna_at idx r = true) (rows df) in
    Ok (group_at (columns df) idx kept <$> keys_of idx kept).
Proof. intros H. unfold groupby. by rewrite H. Qed.

Lemma keys_present cols ih ic :
  get_loc cols HIGHWAY = Some ih → get_loc cols COUNTY = Some ic →
  missing cols [HIGHWAY; COUNTY] = []
  ∧ omap (get_loc cols) [HIGHWAY; COUNTY] = [ih; ic].
Proof.
  intros Hh Hc. split.
  - apply missing_nil. intros l Hl.
    apply elem_of_cons in Hl as [->|Hl]; [by eexists|].
    apply list_elem_of_singleton in Hl as ->. by eexists.
  - simpl. by rewrite Hh, Hc.
Qed.

Lemma cleaned_present df score_col ih ic isc :
  get_loc (columns df) HIGHWAY = Some ih →
  get_loc (columns df) COUNTY = Some ic →
  get_loc (columns df) score_col = Some isc →
  cleaned parse_float df score_col
  = Ok {| columns := columns df;
          rows := coerce parse_float isc
                    <$> filter (λ r, notna_at [ih; ic] r = true) (rows df) |}.
Proof.
  intros Hh Hc Hs. destruct (keys_present _ _ _ Hh Hc) as [Hm Hidx].
  unfold cleaned. rewrite dropna_present by done. rewrite Hidx. simpl.
  unfold getitem; simpl. rewrite Hs. simpl.
  by rewrite setitem_coerce.
Qed.

Lemma heatmaps_present df score_col ih ic isc :
  get_loc (columns df) HIGHWAY = Some ih →
  get_loc (columns df) COUNTY = Some ic →
  get_loc (columns df) score_col = Some isc →
  heatmaps parse_float df score_col
  = Ok (group_at (columns df) [ih; ic] (grouped_rows parse_float ih ic isc (rows df))
          <$> keys_of [ih; ic] (grouped_rows parse_float ih ic isc (rows df))).
Proof.
  intros Hh Hc Hs. destruct (keys_present _ _ _ Hh Hc) as [Hm Hidx].
  unfold heatmaps. rewrite (cleaned_present _ _ _ _ _ Hh Hc Hs). simpl.
  rewrite groupby_present by done. simpl. by rewrite Hh, Hc.
Qed.

(** *** The loop *)

Lemma visit_valid score_col threshold_n st item vs :
  valid_scores item.2 score_col = Ok vs →
  visit score_col threshold_n st item = Ok (bump threshold_n st vs).
Proof. intros H. unfold visit. by rewrite H. Qed.

Lemma for_each_visit score_col threshold_n groups vss st :
  Forall2 (λ item vs, valid_scores item.2 score_col = Ok vs) groups vss →
  for_each (visit score_col threshold_n) groups st
  = Ok (Counters
          (total_groups st + length vss)
          (no_cells_below_50_count st
           + length (filter (λ vs, no_cells_below_50 vs = true) vss))
          (below_n_threshold_count st
           + length (filter (λ vs, below_n_threshold threshold_n vs = true)
                       vss))).
Proof.
  intros H. revert st. induction H as [|item vs groups vss Hv _ IH]; intros st.
  - simpl. rewrite !Nat.add_0_r. by destruct st.
  - simpl. rewrite (visit_valid _ _ _ _ _ Hv). simpl. rewrite IH.
    rewrite !filter_cons. unfold bump; simpl.
    destruct (no_cells_below_50 vs), (below_n_threshold threshold_n vs);
      simpl; do 2 f_equal; lia.
Qed.

Lemma valid_scores_group cols idx rws k score_col isc :
  get_loc cols score_col = Some isc →
  valid_scores (group_at cols idx rws k).2 score_col
  = Ok (scores isc (filter (λ r, key_of idx r = k) rws)).
Proof. intros Hs. unfold valid_scores, getitem; simpl. by rewrite Hs. Qed.

Lemma heatmaps_valid_scores df score_col ih ic isc :
  get_loc (columns df) score_col = Some isc →
  Forall2 (λ item vs, valid_scores item.2 score_col = Ok vs)
    (group_at (columns df) [ih; ic] (grouped_rows parse_float ih ic isc (rows df))
       <$> keys_of [ih; ic] (grouped_rows parse_float ih ic isc (rows df)))
    (group_scores parse_float ih ic isc (rows df)).
Proof.
  intros Hs. unfold group_scores.
  apply Forall2_fmap, Forall_Forall2_diag, Forall_forall. intros k _.
  by apply valid_scores_group.
Qed.

Lemma tally_present df threshold_n score_col ih ic isc :
  get_loc (columns df) HIGHWAY = Some ih →
  get_loc (columns df) COUNTY = Some ic →
  get_loc (columns df) score_col = Some isc →
  tally parse_float df threshold_n score_col
  = let vss := group_scores parse_float ih ic isc (rows df) in
    Ok (Counters (length vss)
          (length (filter (λ vs, no_cells_below_50 vs = true) vss))
          (length (filter (λ vs, below_n_threshold threshold_n vs = true)
                     vss))).
Proof.
  intros Hh Hc Hs. unfold tally.
  rewrite (heatmaps_present _ _ _ _ _ Hh Hc Hs). simpl.
  by rewrite (for_each_visit _ _ _ _ _ (heatmaps_valid_scores _ _ ih ic _ Hs)).
Qed.

(** *** The run *)

Lemma analyze_not_cleaned fs file_path threshold_n score_col df e :
  fs !! file_path = Some df →
  cleaned parse_float df score_col = Raise e →
  analyze_heatmaps parse_float fs file_path threshold_n score_col
  = ([loading_line file_path], Raise e).
Proof.
  intros Hf. unfold analyze_heatmaps, read_csv, cleaned. rewrite Hf.
  destruct (dropna df _) as [df'|e'] eqn:Hd; cbn; [|by intros [= ->]].
  destruct (getitem df' _) as [values|e'] eqn:Hg; cbn; [done|].
  by intros [= ->].
Qed.

Lemma analyze_grouped fs file_path threshold_n score_col df groups st :
  fs !! file_path = Some df →
  heatmaps parse_float df score_col = Ok groups →
  tally parse_float df threshold_n score_col = Ok st →
  analyze_heatmaps parse_float fs file_path threshold_n score_col
  = ([loading_line file_path; grouping_line;
      analyzing_line (length groups)] ++ stdout (summary threshold_n st),
     outcome (summary threshold_n st)).
Proof.
  intros Hf. unfold tally, heatmaps, analyze_heatmaps, read_csv, cleaned.
  rewrite Hf.
  destruct (dropna df _) as [df'|e'] eqn:Hd; cbn; [|done].
  destruct (getitem df' _) as [values|e'] eqn:Hg; cbn; [|done].
  intros Hgr. rewrite Hgr. cbn. intros Hst. rewrite Hst. cbn.
  unfold summary, stdout, outcome.
  destruct (truediv _ _) as [q1|e1]; cbn; [|done].
  by destruct (truediv _ _) as [q2|e2].
Qed.

Lemma cleaned_absent df score_col :
  missing (columns df) [HIGHWAY; COUNTY] ≠ []
  ∨ get_loc (columns df) score_col = None →
  cleaned parse_float df score_col
  = Raise (cleaned_error (columns df) score_col).
Proof.
  intros H. unfold cleaned, cleaned_error, dropna.
  destruct (missing _ _) as [|l absent] eqn:Hm; [|done].
  destruct H as [H|H]; [done|]. simpl. unfold getitem; simpl. by rewrite H.
Qed.

Lemma present_or_absent cols score_col :
  (∃ ih ic isc, get_loc cols HIGHWAY = Some ih ∧ get_loc cols COUNTY = Some ic
                ∧ get_loc cols score_col = Some isc)
  ∨ (missing cols [HIGHWAY; COUNTY] ≠ [] ∨ get_loc cols score_col = None).
Proof.
  destruct (get_loc cols score_col) as [isc|] eqn:Hs; [|by right; right].
  destruct (decide (missing cols [HIGHWAY; COUNTY] = [])) as [Hm|Hm];
    [|by right; left].
  left. pose proof (proj1 (missing_nil _ _) Hm) as H.
  destruct (H HIGHWAY) as [ih Hh]; [by left|].
  destruct (H COUNTY) as [ic Hc]; [by right; left|].
  by exists ih, ic, isc.
Qed.

Lemma heatmaps_Ok_inv df score_col groups :
  heatmaps parse_float df score_col = Ok groups →
  ∃ ih ic isc,
    get_loc (columns df) HIGHWAY = Some ih
    ∧ get_loc (columns df) COUNTY = Some ic
    ∧ get_loc (columns df) score_col = Some isc.
Proof.
  intros H. destruct (present_or_absent (columns df) score_col) as [?|Ha];
    [done|].
  unfold heatmaps in H. by rewrite (cleaned_absent _ _ Ha) in H.
Qed.

Lemma summary_zero threshold_n st :
  total_groups st = 0 →
  summary threshold_n st = ([rule; total_line 0], Raise ZeroDivisionError).
Proof. intros H. unfold summary, truediv. rewrite H. by cbn. Qed.

Lemma summary_pos threshold_n st :
  total_groups st ≠ 0 →
  summary threshold_n st
  = ([rule; total_line (total_groups st);
      no_below_50_line (no_cells_below_50_count st)
        (inject_Z (Z.of_nat (no_cells_below_50_count st))
         / inject_Z (Z.of_nat (total_groups st)))%Q;
      below_n_line threshold_n (below_n_threshold_count st)
        (inject_Z (Z.of_nat (below_n_threshold_count st))
         / inject_Z (Z.of_nat (total_groups st)))%Q;
      rule], Ok tt).
Proof.
  intros H. unfold summary, truediv.
  destruct (total_groups st) as [|n]; [done|]. by cbn.
Qed.

(** *** The score column after the coercion *)

Lemma coerce_no_text i row : no_text (iat (coerce parse_float i row) i).
Proof.
  unfold coerce, iat. destruct (decide (i < length row)) as [Hi|Hi].
  - rewrite list_lookup_insert_eq by done. simpl.
    destruct (default NaN (row !! i)) as [| |s]; simpl; [done..|].
    by destruct (parse_float s).
  - rewrite list_insert_ge by lia. rewrite lookup_ge_None_2 by lia. done.
Qed.

Lemma grouped_rows_no_text ih ic isc rws r :
  r ∈ grouped_rows parse_float ih ic isc rws → no_text (iat r isc).
Proof.
  unfold grouped_rows. intros [_ Hr]%list_elem_of_filter.
  apply list_elem_of_fmap in Hr as (r0 & -> & _). apply coerce_no_text.
Qed.

Lemma scores_length i rws :
  Forall (λ r, no_text (iat r i)) rws →
  length (scores i rws)
  = length (filter (λ c, c ≠ NaN) ((λ r, iat r i) <$> rws)).
Proof.
  unfold scores, dropna_series.
  induction 1 as [|r rws Hr _ IH]; [done|].
  rewrite fmap_cons, filter_cons. simpl.
  destruct (iat r i) as [| |s]; simpl in *; [done| |done].
  f_equal. exact IH.
Qed.

(** *** The two tests of the loop body *)

Lemma below_50_lt x : below_50 x = true ↔ (x < 50)%Q.
Proof.
  unfold below_50. rewrite Qlt_alt.
  destruct (x ?= 50)%Q; split; congruence.
Qed.

Lemma no_cells_below_50_spec vs :
  no_cells_below_50 vs = true ↔ Forall (λ x, ¬ (x < 50)%Q) vs.
Proof.
  unfold no_cells_below_50. rewrite bool_decide_eq_true, length_zero_iff_nil.
  induction vs as [|x vs IH].
  - split; [by constructor|done].
  - rewrite filter_cons, Forall_cons. destruct (decide _) as [Hx|Hx].
    + split; [done|]. intros [Hn _]. by apply below_50_lt in Hx.
    + rewrite IH. rewrite below_50_lt in Hx. tauto.
Qed.

Lemma below_n_threshold_spec threshold_n vs :
  below_n_threshold threshold_n vs = true
  ↔ (Z.of_nat (length vs) < threshold_n)%Z.
Proof. unfold below_n_threshold. by rewrite bool_decide_eq_true. Qed.

Lemma tally_counts df threshold_n score_col groups :
  heatmaps parse_float df score_col = Ok groups →
  ∃ vss,
    Forall2 (λ item vs, valid_scores item.2 score_col = Ok vs) groups vss
    ∧ tally parse_float df threshold_n score_col
      = Ok (Counters (length groups)
              (length (filter (λ vs, no_cells_below_50 vs = true) vss))
              (length (filter (λ vs, below_n_threshold threshold_n vs = true)
                         vss))).
Proof.
  intros H. destruct (heatmaps_Ok_inv _ _ _ H) as (ih & ic & isc & Hh & Hc & Hs).
  rewrite (heatmaps_present _ _ _ _ _ Hh Hc Hs) in H. injection H as <-.
  exists (group_scores parse_float ih ic isc (rows df)). split.
  - by apply heatmaps_valid_scores.
  - rewrite (tally_present _ _ _ _ _ _ Hh Hc Hs). simpl.
    unfold group_scores. by rewrite !length_fmap.
Qed.

(** ** Properties of the analysis *)

(** C3. When the input file does not exist, the run prints the loading line
    and a line that ends with the path, and returns normally: nothing is
    coerced, grouped or summarised, and no exception reaches the caller. *)
Theorem missing_file_reported fs file_path threshold_n score_col :
  fs !! file_path = None →
  analyze_heatmaps parse_float fs file_path threshold_n score_col
  = (["Loading data from " +:+ file_path +:+ "...";
      "Error: File not found at " +:+ file_path], Ok tt).
Proof.
  intros Hf. unfold analyze_heatmaps, read_csv.
  rewrite Hf. cbn. reflexivity.
Qed.

(** C1. The below-50 test of a group holds exactly when no valid score of
    the group is strictly below 50; a score of 50 is not below 50; and after
    the loop [no_cells_below_50_count] is the number of groups none of whose
    valid scores is below 50. *)
Theorem no_cells_below_50_count_exact df threshold_n score_col groups :
  heatmaps parse_float df score_col = Ok groups →
  (∀ vs, no_cells_below_50 vs = true ↔ ∀ x, x ∈ vs → ¬ (x < 50)%Q)
  ∧ no_cells_below_50 [50%Q] = true
  ∧ ∃ vss st,
      Forall2 (λ item vs, valid_scores item.2 score_col = Ok vs) groups vss
      ∧ tally parse_float df threshold_n score_col = Ok st
      ∧ no_cells_below_50_count st
        = length (filter (λ vs, Forall (λ x, ¬ (x < 50)%Q) vs) vss).
Proof.
  intros H. split; [|split; [done|]].
  - intros vs. by rewrite no_cells_below_50_spec, Forall_forall.
  - destruct (tally_counts _ threshold_n _ _ H) as (vss & Hv & Ht).
    eexists vss, _. split; [done|]. split; [done|]. simpl.
    f_equal. apply list_filter_iff. intros vs. apply no_cells_below_50_spec.
Qed.

(** C2. The N-threshold test of a group holds exactly when the number of
    its valid scores is strictly below N; the valid scores of a group are as
    many as the non-null cells of its score column, not as many as its rows;
    and after the loop [below_n_threshold_count] is the number of groups
    with fewer than N valid scores. *)
Theorem below_n_threshold_count_exact df threshold_n score_col groups :
  heatmaps parse_float df score_col = Ok groups →
  (∀ vs, below_n_threshold threshold_n vs = true
         ↔ (Z.of_nat (length vs) < threshold_n)%Z)
  ∧ (∀ item, item ∈ groups →
       ∃ values vs,
         getitem item.2 score_col = Ok values
         ∧ valid_scores item.2 score_col = Ok vs
         ∧ length values = length (rows item.2)
         ∧ length vs = length (filter (λ c, c ≠ NaN) values))
  ∧ ∃ vss st,
      Forall2 (λ item vs, valid_scores item.2 score_col = Ok vs) groups vss
      ∧ tally parse_float df threshold_n score_col = Ok st
      ∧ below_n_threshold_count st
        = length (filter (λ vs, (Z.of_nat (length vs) < threshold_n)%Z) vss).
Proof.
  intros H. split; [|split].
  - intros vs. apply below_n_threshold_spec.
  - intros item Hitem.
    destruct (heatmaps_Ok_inv _ _ _ H) as (ih & ic & isc & Hh & Hc & Hs).
    rewrite (heatmaps_present _ _ _ _ _ Hh Hc Hs) in H. injection H as <-.
    apply list_elem_of_fmap in Hitem as (k & -> & _).
    eexists _, _. split; [|split; [by apply valid_scores_group|split]].
    + unfold getitem; simpl. by rewrite Hs.
    + by rewrite length_fmap.
    + apply scores_length, Forall_forall. intros r Hr.
      apply list_elem_of_filter in Hr as [_ Hr].
      apply grouped_rows_no_text in Hr. done.
  - destruct (tally_counts _ threshold_n _ _ H) as (vss & Hv & Ht).
    eexists vss, _. split; [done|]. split; [done|]. simpl.
    f_equal. apply list_filter_iff. intros vs. apply below_n_threshold_spec.
Qed.

(** C6. A group with no valid score passes both tests for every threshold
    N >= 1, so the loop body counts it in all three counters. *)
Theorem empty_group_counted_twice score_col threshold_n st item :
  valid_scores item.2 score_col = Ok [] →
  (1 ≤ threshold_n)%Z →
  no_cells_below_50 [] = true
  ∧ below_n_threshold threshold_n [] = true
  ∧ visit score_col threshold_n st item
    = Ok (Counters (S (total_groups st)) (S (no_cells_below_50_count st))
            (S (below_n_threshold_count st))).
Proof.
  intros Hv HN.
  assert (below_n_threshold threshold_n [] = true) as Hb.
  { apply below_n_threshold_spec. simpl. lia. }
  split; [done|]. split; [done|].
  rewrite (visit_valid _ _ _ _ _ Hv). unfold bump. by rewrite Hb.
Qed.

(** *** Shares and percentages *)



Lemma tally_bounds df threshold_n score_col groups :
  heatmaps parse_float df score_col = Ok groups →
  ∃ st,
    tally parse_float df threshold_n score_col = Ok st
    ∧ total_groups st = length groups
    ∧ no_cells_below_50_count st ≤ total_groups st
    ∧ below_n_threshold_count st ≤ total_groups st.
Proof.
  intros H. destruct (tally_counts _ threshold_n _ _ H) as (vss & Hv & Ht).
  apply Forall2_length in Hv.
  eexists. split; [done|]. simpl. rewrite Hv. split; [done|].
  split; apply length_filter.
Qed.


(** C7, amended. On a loaded table that has the two key columns and the
    score column, the run fails exactly when there is no group: it then
    raises the division by zero of the first percentage, after the line of
    the total; with at least one group it returns normally. *)
Theorem zero_groups_division_by_zero fs file_path threshold_n score_col df :
  fs !! file_path = Some df →
  missing (columns df) [HIGHWAY; COUNTY; score_col] = [] →
  ∃ groups,
    heatmaps parse_float df score_col = Ok groups
    ∧ (groups = [] →
       analyze_heatmaps parse_float fs file_path threshold_n score_col
       = (["Loading data from " +:+ file_path +:+ "...";
           "Grouping by Highway and County...";
           "Analyzing 0 heatmaps...";
           "------------------------------";
           "Total Heatmaps (Highway-County pairs): 0"],
          Raise ZeroDivisionError))
    ∧ (groups ≠ [] →
       outcome (analyze_heatmaps parse_float fs file_path threshold_n
                  score_col) = Ok tt).
Proof.
  intros Hf Hm. pose proof (proj1 (missing_nil _ _) Hm) as Hp.
  destruct (Hp HIGHWAY) as [ih Hh]; [set_solver|].
  destruct (Hp COUNTY) as [ic Hc]; [set_solver|].
  destruct (Hp score_col) as [isc Hs]; [set_solver|].
  pose proof (heatmaps_present _ _ _ _ _ Hh Hc Hs) as H.
  eexists. split; [exact H|].
  destruct (tally_bounds _ threshold_n _ _ H) as (st & Ht & Hl & _).
  rewrite (analyze_grouped _ _ _ _ _ _ _ Hf H Ht).
  split; intros Hg.
  - rewrite Hg in *. simpl in Hl. by rewrite summary_zero.
  - rewrite summary_pos; [done|]. rewrite Hl.
    intros Hz%length_zero_iff_nil. done.
Qed.

(** C10, amended. When the file exists but lacks a key column or the score
    column, a [KeyError] naming absent columns reaches the caller; only the
    loading line has been printed by then. *)
Theorem missing_column_key_error fs file_path threshold_n score_col df :
  fs !! file_path = Some df →
  missing (columns df) [HIGHWAY; COUNTY; score_col] ≠ [] →
  ∃ labels,
    labels ≠ []
    ∧ labels ⊆ missing (columns df) [HIGHWAY; COUNTY; score_col]
    ∧ analyze_heatmaps parse_float fs file_path threshold_n score_col
      = (["Loading data from " +:+ file_path +:+ "..."],
         Raise (KeyError labels)).
Proof.
  intros Hf Hm.
  destruct (present_or_absent (columns df) score_col)
    as [(ih & ic & isc & Hh & Hc & Hs)|Ha].
  { destruct Hm. apply missing_nil. intros l Hl.
    repeat (apply elem_of_cons in Hl as [->|Hl]; [by eexists|]).
    by apply elem_of_nil in Hl. }
  rewrite (analyze_not_cleaned _ _ _ _ _ _ Hf (cleaned_absent _ _ Ha)).
  unfold cleaned_error.
  destruct (missing (columns df) [HIGHWAY; COUNTY]) as [|l ls] eqn:Hk.
  - destruct Ha as [?|Hn]; [done|]. exists [score_col].
    split; [done|]. split; [|done].
    intros x ->%list_elem_of_singleton. apply list_elem_of_filter.
    split; [done|]. by do 2 right; left.
  - exists (l :: ls). split; [done|]. split; [|done]. rewrite <- Hk.
    intros x [Hx Hin]%list_elem_of_filter. apply list_elem_of_filter.
    split; [done|].
    apply elem_of_cons in Hin as [->|Hin]; [by left|].
    apply list_elem_of_singleton in Hin as ->. by right; left.
Qed.

(** *** Rows without a key *)

Lemma notna_at_keys ih ic row :
  notna_at [ih; ic] row = true ↔ iat row ih ≠ NaN ∧ iat row ic ≠ NaN.
Proof.
  unfold notna_at. simpl.
  destruct (iat row ih), (iat row ic); simpl; split; try done; intros []; done.
Qed.

Lemma dropna_keyless cols before r after :
  value cols r HIGHWAY = NaN ∨ value cols r COUNTY = NaN →
  dropna {| columns := cols; rows := before ++ r :: after |} [HIGHWAY; COUNTY]
  = dropna {| columns := cols; rows := before ++ after |} [HIGHWAY; COUNTY].
Proof.
  intros Hr. unfold dropna; simpl.
  destruct (missing cols [HIGHWAY; COUNTY]) as [|l ls] eqn:Hm; [|done].
  pose proof (proj1 (missing_nil _ _) Hm) as Hp.
  destruct (Hp HIGHWAY) as [ih Hh]; [by left|].
  destruct (Hp COUNTY) as [ic Hc]; [by right; left|].
  simpl. unfold value in Hr. rewrite Hh, Hc in *. simpl.
  do 2 f_equal. rewrite !filter_app, filter_cons.
  destruct (decide _) as [Hn|Hn]; [|done].
  apply notna_at_keys in Hn. tauto.
Qed.

(** C4. A row whose highway id or county is missing is dropped before the
    grouping: with or without it the groups, the counters and the whole run
    are the same, and no row of any group lacks a highway id or a county. *)
Theorem keyless_row_excluded fs file_path threshold_n score_col cols
    before r after :
  value cols r HIGHWAY = NaN ∨ value cols r COUNTY = NaN →
  let df := {| columns := cols; rows := before ++ after |} in
  let df' := {| columns := cols; rows := before ++ r :: after |} in
  heatmaps parse_float df' score_col = heatmaps parse_float df score_col
  ∧ tally parse_float df' threshold_n score_col
    = tally parse_float df threshold_n score_col
  ∧ analyze_heatmaps parse_float (<[file_path := df']> fs) file_path
      threshold_n score_col
    = analyze_heatmaps parse_float (<[file_path := df]> fs) file_path
        threshold_n score_col
  ∧ ∀ groups item row,
      heatmaps parse_float df' score_col = Ok groups →
      item ∈ groups → row ∈ rows item.2 →
      value (columns item.2) row HIGHWAY ≠ NaN
      ∧ value (columns item.2) row COUNTY ≠ NaN.
Proof.
  intros Hr df df'. pose proof (dropna_keyless _ before _ after Hr) as Hd.
  assert (heatmaps parse_float df' score_col
          = heatmaps parse_float df score_col) as Hh.
  { unfold heatmaps, cleaned, df, df'. by rewrite Hd. }
  split; [done|]. split; [|split].
  - unfold tally. by rewrite Hh.
  - unfold analyze_heatmaps, read_csv. rewrite !lookup_insert_eq.
    unfold df, df'. by rewrite Hd.
  - intros groups item row Hg Hitem Hrow.
    destruct (heatmaps_Ok_inv _ _ _ Hg) as (ih & ic & isc & Hi & Hc & Hs).
    rewrite (heatmaps_present _ _ _ _ _ Hi Hc Hs) in Hg. injection Hg as <-.
    apply list_elem_of_fmap in Hitem as (k & -> & _). simpl in *.
    apply list_elem_of_filter in Hrow as [_ Hrow].
    apply list_elem_of_filter in Hrow as [Hrow _].
    apply notna_at_keys in Hrow. unfold value. by rewrite Hi, Hc.
Qed.

(** *** A score that does not parse *)


Lemma iat_insert_ne row i j c : i ≠ j → iat (<[i := c]> row) j = iat row j.
Proof. intros Hne. unfold iat. by rewrite list_lookup_insert_ne. Qed.


Lemma elem_of_keys_of idx rws r : r ∈ rws → key_of idx r ∈ keys_of idx rws.
Proof.
  intros Hr. unfold keys_of.
  rewrite merge_sort_Permutation, elem_of_remove_dups.
  by apply list_elem_of_fmap_2.
Qed.



(** *** Reordering the rows *)

Lemma keys_of_Permutation idx rws rws' :
  rws ≡ₚ rws' → keys_of idx rws ≡ₚ keys_of idx rws'.
Proof.
  intros Hp. unfold keys_of. rewrite !merge_sort_Permutation.
  apply NoDup_Permutation; [apply NoDup_remove_dups..|].
  intros k. rewrite !elem_of_remove_dups. by rewrite Hp.
Qed.

Lemma grouped_rows_Permutation ih ic isc rws rws' :
  rws ≡ₚ rws' →
  grouped_rows parse_float ih ic isc rws
  ≡ₚ grouped_rows parse_float ih ic isc rws'.
Proof. intros Hp. unfold grouped_rows. by rewrite Hp. Qed.

Lemma no_cells_below_50_Permutation vs vs' :
  vs ≡ₚ vs' → no_cells_below_50 vs = no_cells_below_50 vs'.
Proof.
  intros Hp. unfold no_cells_below_50. apply bool_decide_ext. by rewrite Hp.
Qed.

Lemma below_n_threshold_Permutation threshold_n vs vs' :
  vs ≡ₚ vs' →
  below_n_threshold threshold_n vs = below_n_threshold threshold_n vs'.
Proof.
  intros Hp. unfold below_n_threshold. apply bool_decide_ext. by rewrite Hp.
Qed.

Lemma scores_Permutation i rws rws' :
  rws ≡ₚ rws' → scores i rws ≡ₚ scores i rws'.
Proof. intros Hp. unfold scores, dropna_series. by rewrite Hp. Qed.

Lemma length_filter_fmap {A B} (P : B → Prop) `{!∀ y, Decision (P y)}
    (f : A → B) (l : list A) :
  length (filter P (f <$> l)) = length (filter (λ x, P (f x)) l).
Proof.
  induction l as [|x l IH]; [done|].
  rewrite fmap_cons, !filter_cons. destruct (decide _); simpl; by rewrite IH.
Qed.

(** The number of groups whose valid scores pass a test that does not
    depend on their order is the same after a reordering of the rows. *)
Lemma count_groups_Permutation (test : list Q → bool) ih ic isc rws rws' :
  (∀ vs vs', vs ≡ₚ vs' → test vs = test vs') →
  rws ≡ₚ rws' →
  length (filter (λ vs, test vs = true) (group_scores parse_float ih ic isc rws))
  = length (filter (λ vs, test vs = true)
              (group_scores parse_float ih ic isc rws')).
Proof.
  intros Htest Hp. unfold group_scores. rewrite !length_filter_fmap.
  pose proof (grouped_rows_Permutation ih ic isc _ _ Hp) as HR.
  rewrite (keys_of_Permutation [ih; ic] _ _ HR).
  f_equal. apply list_filter_iff. intros k.
  rewrite (Htest _ (scores isc (filter (λ r, key_of [ih; ic] r = k)
                      (grouped_rows parse_float ih ic isc rws')))); [done|].
  apply scores_Permutation. by rewrite HR.
Qed.

Lemma tally_Permutation df df' threshold_n score_col :
  columns df = columns df' → rows df ≡ₚ rows df' →
  tally parse_float df threshold_n score_col
  = tally parse_float df' threshold_n score_col.
Proof.
  intros Hcols Hp.
  destruct (present_or_absent (columns df) score_col)
    as [(ih & ic & isc & Hh & Hc & Hs)|Ha].
  - rewrite (tally_present _ _ _ _ _ _ Hh Hc Hs).
    rewrite Hcols in Hh, Hc, Hs.
    rewrite (tally_present _ _ _ _ _ _ Hh Hc Hs). simpl.
    f_equal. f_equal.
    + unfold group_scores. rewrite !length_fmap.
      by rewrite (keys_of_Permutation _ _ _
                    (grouped_rows_Permutation ih ic isc _ _ Hp)).
    + apply count_groups_Permutation;
        auto using no_cells_below_50_Permutation.
    + apply count_groups_Permutation;
        auto using below_n_threshold_Permutation.
  - unfold tally, heatmaps. rewrite (cleaned_absent df _ Ha).
    rewrite Hcols in Ha. rewrite (cleaned_absent df' _ Ha).
    by rewrite Hcols.
Qed.

Lemma for_each_visit_Permutation score_col threshold_n groups groups' st :
  Forall (λ item, ∃ vs, valid_scores item.2 score_col = Ok vs) groups →
  groups ≡ₚ groups' →
  for_each (visit score_col threshold_n) groups st
  = for_each (visit score_col threshold_n) groups' st.
Proof.
  intros Hv Hp.
  set (vs_of := λ item : key * DataFrame,
         match valid_scores item.2 score_col with
         | Ok vs => vs
         | Raise _ => []
         end).
  assert (∀ l, Forall (λ item, ∃ vs, valid_scores item.2 score_col = Ok vs) l →
               Forall2 (λ item vs, valid_scores item.2 score_col = Ok vs)
                 l (vs_of <$> l)) as Hall.
  { intros l Hl. apply Forall2_fmap_r, Forall_Forall2_diag.
    eapply Forall_impl; [exact Hl|]. intros item [vs Hvs].
    unfold compose, vs_of. by rewrite Hvs. }
  rewrite (for_each_visit _ _ _ _ _ (Hall _ Hv)).
  rewrite Hp in Hv. rewrite (for_each_visit _ _ _ _ _ (Hall _ Hv)).
  by rewrite Hp.
Qed.

(** C8. The three counters are the same for any two tables with the same
    columns and the same rows in a different order, and so is the whole
    run; and the loop gives the same counters in whatever order it visits
    the groups. *)
Theorem counts_invariant_under_row_order fs file_path threshold_n score_col
    df df' :
  columns df = columns df' → rows df ≡ₚ rows df' →
  tally parse_float df threshold_n score_col
  = tally parse_float df' threshold_n score_col
  ∧ analyze_heatmaps parse_float (<[file_path := df]> fs) file_path
      threshold_n score_col
    = analyze_heatmaps parse_float (<[file_path := df']> fs) file_path
        threshold_n score_col
  ∧ ∀ groups groups',
      heatmaps parse_float df score_col = Ok groups →
      groups ≡ₚ groups' →
      for_each (visit score_col threshold_n) groups' (Counters 0 0 0)
      = tally parse_float df threshold_n score_col.
Proof.
  intros Hcols Hp.
  pose proof (tally_Permutation _ _ threshold_n score_col Hcols Hp) as Ht.
  split; [done|].
  pose proof (lookup_insert_eq fs file_path df) as Hf.
  pose proof (lookup_insert_eq fs file_path df') as Hf'.
  split.
  - destruct (present_or_absent (columns df) score_col)
      as [(ih & ic & isc & Hh & Hc & Hs)|Ha].
    + pose proof (heatmaps_present _ _ _ _ _ Hh Hc Hs) as Hg.
      destruct (tally_bounds _ threshold_n _ _ Hg) as (st & Hst & Hl & _).
      rewrite (analyze_grouped _ _ _ _ _ _ _ Hf Hg Hst).
      rewrite Hcols in Hh, Hc, Hs.
      pose proof (heatmaps_present _ _ _ _ _ Hh Hc Hs) as Hg'.
      destruct (tally_bounds _ threshold_n _ _ Hg') as (st' & Hst' & Hl' & _).
      rewrite (analyze_grouped _ _ _ _ _ _ _ Hf' Hg' Hst').
      assert (st' = st) as -> by congruence.
      by rewrite <- Hl, <- Hl'.
    + rewrite (analyze_not_cleaned _ _ _ _ _ _ Hf (cleaned_absent df _ Ha)).
      rewrite Hcols in Ha.
      rewrite (analyze_not_cleaned _ _ _ _ _ _ Hf' (cleaned_absent df' _ Ha)).
      by rewrite Hcols.
  - intros groups groups' Hg Hgp. unfold tally. rewrite Hg. simpl.
    symmetry. apply for_each_visit_Permutation; [|done].
    destruct (tally_counts _ threshold_n _ _ Hg) as (vss & Hv & _).
    clear -Hv. induction Hv; constructor; eauto.
Qed.

End Stages.

(** ** Rounding to two decimals *)

(** [round_half_even] is within a half of its argument. *)
Lemma round_half_even_nearest q :
  (2 * Z.abs (round_half_even q * Z.pos (Qden q) - Qnum q) ≤ Z.pos (Qden q))%Z.
Proof.
  unfold round_half_even.
  pose proof (Z.div_mod (Qnum q) (Z.pos (Qden q)) ltac:(lia)) as Hdm.
  pose proof (Z.mod_pos_bound (Qnum q) (Z.pos (Qden q)) ltac:(lia)) as Hb.
  repeat case_decide; [nia|nia|].
  destruct (Z.even _); nia.
Qed.

(** ** The scenarios of the specification *)

(** Scenario 1: scores 10 and 60. *)
Example scenario_1 :
  analyze_heatmaps decimal (scenario [Num 10; Num 60]) "s.csv" default_n
    default_score_col
  = (["Loading data from s.csv..."; "Grouping by Highway and County...";
      "Analyzing 1 heatmaps..."; "------------------------------";
      "Total Heatmaps (Highway-County pairs): 1";
      "Heatmaps with NO cells with score < 50: 0 (0.00%)";
      "Heatmaps with N < 5 (valid points): 1 (100.00%)";
      "------------------------------"], Ok tt).
Proof. vm_compute. reflexivity. Qed.

(** Scenario 2: scores 60 and 70. *)
Example scenario_2 :
  analyze_heatmaps decimal (scenario [Num 60; Num 70]) "s.csv" default_n
    default_score_col
  = (["Loading data from s.csv..."; "Grouping by Highway and County...";
      "Analyzing 1 heatmaps..."; "------------------------------";
      "Total Heatmaps (Highway-County pairs): 1";
      "Heatmaps with NO cells with score < 50: 1 (100.00%)";
      "Heatmaps with N < 5 (valid points): 1 (100.00%)";
      "------------------------------"], Ok tt).
Proof. vm_compute. reflexivity. Qed.

(** Scenario 3: the only row has no county. *)
Example scenario_3 :
  analyze_heatmaps decimal ex_fs "keyless.csv" default_n default_score_col
  = (["Loading data from keyless.csv..."; "Grouping by Highway and County...";
      "Analyzing 0 heatmaps..."; "------------------------------";
      "Total Heatmaps (Highway-County pairs): 0"], Raise ZeroDivisionError).
Proof. vm_compute. reflexivity. Qed.

(** Scenario 4: three rows, one with a score that is no number. *)
Example scenario_4 :
  ∃ item,
    heatmaps decimal
      {| columns := ex_columns;
         rows := (λ c, [Str "IH0035"; Str "BEXAR"; c])
                   <$> [Str "61"; Str "sixty"; Str "62"] |}
      default_score_col = Ok [item]
    ∧ length (rows item.2) = 3
    ∧ valid_scores item.2 default_score_col = Ok [61%Q; 62%Q].
Proof. eexists. split; [vm_compute; reflexivity|]. by vm_compute. Qed.

(** A group of six rows with two valid scores is below the threshold 5. *)
Example six_rows_two_valid :
  tally decimal
    {| columns := ex_columns;
       rows := (λ c, [Str "IH0035"; Str "BEXAR"; c])
                 <$> [Num 70; NaN; Str "x"; NaN; Num 80; NaN] |}
    5 default_score_col
  = Ok (Counters 1 1 1).
Proof. vm_compute. reflexivity. Qed.

(** ** The properties on the sample tables *)

(** A missing score column is another failure after a successful load: the
    statement that a division by zero is the only one is false. *)
Lemma division_by_zero_not_only_failure :
  ¬ (∀ fs file_path threshold_n score_col e,
       is_Some (fs !! file_path) →
       outcome (analyze_heatmaps decimal fs file_path threshold_n score_col)
       = Raise e →
       e = ZeroDivisionError).
Proof.
  intros H.
  specialize (H ex_fs "noscore.csv" 5%Z default_score_col
                (KeyError [default_score_col])).
  discriminate H; [by eexists|by vm_compute].
Qed.

(** The grouping line is not printed before the [KeyError] of a missing
    column: the statement that the progress lines precede it is false. *)
Lemma key_error_before_grouping_line :
  ¬ (∀ fs file_path threshold_n score_col df,
       fs !! file_path = Some df →
       missing (columns df) [HIGHWAY; COUNTY; score_col] ≠ [] →
       "Grouping by Highway and County..."
       ∈ stdout (analyze_heatmaps decimal fs file_path threshold_n score_col)).
Proof.
  intros H.
  specialize (H ex_fs "noscore.csv" 5%Z default_score_col ex_no_score
                eq_refl ltac:(by vm_compute)).
  vm_compute in H. apply list_elem_of_singleton in H. discriminate H.
Qed.

Lemma missing_file_reported_witness :
  analyze_heatmaps decimal ex_fs "b.csv" 5 default_score_col
  = (["Loading data from b.csv..."; "Error: File not found at b.csv"], Ok tt).
Proof.
  apply (missing_file_reported decimal ex_fs "b.csv" 5 default_score_col).
  reflexivity.
Defined.

Lemma no_cells_below_50_count_exact_witness :
  (∀ vs, no_cells_below_50 vs = true ↔ ∀ x, x ∈ vs → ¬ (x < 50)%Q)
  ∧ no_cells_below_50 [50%Q] = true
  ∧ ∃ vss st,
      Forall2 (λ item vs, valid_scores item.2 default_score_col = Ok vs)
        ex_groups vss
      ∧ tally decimal ex_table 5 default_score_col = Ok st
      ∧ no_cells_below_50_count st
        = length (filter (λ vs, Forall (λ x, ¬ (x < 50)%Q) vs) vss).
Proof.
  apply (no_cells_below_50_count_exact decimal ex_table 5 default_score_col
           ex_groups).
  vm_compute. reflexivity.
Defined.

Lemma below_n_threshold_count_exact_witness :
  (∀ vs, below_n_threshold 5 vs = true ↔ (Z.of_nat (length vs) < 5)%Z)
  ∧ (∀ item, item ∈ ex_groups →
       ∃ values vs,
         getitem item.2 default_score_col = Ok values
         ∧ valid_scores item.2 default_score_col = Ok vs
         ∧ length values = length (rows item.2)
         ∧ length vs = length (filter (λ c, c ≠ NaN) values))
  ∧ ∃ vss st,
      Forall2 (λ item vs, valid_scores item.2 default_score_col = Ok vs)
        ex_groups vss
      ∧ tally decimal ex_table 5 default_score_col = Ok st
      ∧ below_n_threshold_count st
        = length (filter (λ vs, (Z.of_nat (length vs) < 5)%Z) vss).
Proof.
  apply (below_n_threshold_count_exact decimal ex_table 5 default_score_col
           ex_groups).
  vm_compute. reflexivity.
Defined.

Lemma empty_group_counted_twice_witness :
  no_cells_below_50 [] = true
  ∧ below_n_threshold 1 [] = true
  ∧ visit default_score_col 1 (Counters 4 2 3)
      ([Str "IH0035"; Str "BEXAR"],
       {| columns := ex_columns;
          rows := [ [Str "IH0035"; Str "BEXAR"; NaN] ] |})
    = Ok (Counters 5 3 4).
Proof.
  apply (empty_group_counted_twice default_score_col 1 (Counters 4 2 3)).
  - reflexivity.
  - lia.
Defined.


Lemma zero_groups_division_by_zero_witness :
  ∃ groups,
    heatmaps decimal ex_keyless default_score_col = Ok groups
    ∧ (groups = [] →
       analyze_heatmaps decimal ex_fs "keyless.csv" 5 default_score_col
       = (["Loading data from " +:+ "keyless.csv" +:+ "...";
           "Grouping by Highway and County...";
           "Analyzing 0 heatmaps...";
           "------------------------------";
           "Total Heatmaps (Highway-County pairs): 0"],
          Raise ZeroDivisionError))
    ∧ (groups ≠ [] →
       outcome (analyze_heatmaps decimal ex_fs "keyless.csv" 5
                  default_score_col) = Ok tt).
Proof.
  apply (zero_groups_division_by_zero decimal ex_fs "keyless.csv" 5
           default_score_col ex_keyless).
  - reflexivity.
  - reflexivity.
Defined.

Lemma missing_column_key_error_witness :
  ∃ labels,
    labels ≠ []
    ∧ labels ⊆ missing (columns ex_no_score)
                 [HIGHWAY; COUNTY; default_score_col]
    ∧ analyze_heatmaps decimal ex_fs "noscore.csv" 5 default_score_col
      = (["Loading data from " +:+ "noscore.csv" +:+ "..."],
         Raise (KeyError labels)).
Proof.
  apply (missing_column_key_error decimal ex_fs "noscore.csv" 5
           default_score_col ex_no_score).
  - reflexivity.
  - vm_compute. discriminate.
Defined.

Lemma keyless_row_excluded_witness :
  let df := {| columns := ex_columns;
               rows := [ [Str "IH0035"; Str "BEXAR"; Num 10] ]
                       ++ [ [Str "IH0035"; Str "BEXAR"; Num 60] ] |} in
  let df' := {| columns := ex_columns;
                rows := [ [Str "IH0035"; Str "BEXAR"; Num 10] ]
                        ++ [Str "IH0035"; NaN; Num 60]
                           :: [ [Str "IH0035"; Str "BEXAR"; Num 60] ] |} in
  heatmaps decimal df' default_score_col = heatmaps decimal df default_score_col
  ∧ tally decimal df' 5 default_score_col = tally decimal df 5 default_score_col
  ∧ analyze_heatmaps decimal (<["a.csv" := df']> ex_fs) "a.csv" 5
      default_score_col
    = analyze_heatmaps decimal (<["a.csv" := df]> ex_fs) "a.csv" 5
        default_score_col
  ∧ ∀ groups item row,
      heatmaps decimal df' default_score_col = Ok groups →
      item ∈ groups → row ∈ rows item.2 →
      value (columns item.2) row HIGHWAY ≠ NaN
      ∧ value (columns item.2) row COUNTY ≠ NaN.
Proof.
  apply (keyless_row_excluded decimal ex_fs "a.csv" 5 default_score_col
           ex_columns [ [Str "IH0035"; Str "BEXAR"; Num 10] ]
           [Str "IH0035"; NaN; Num 60]
           [ [Str "IH0035"; Str "BEXAR"; Num 60] ]).
  right. reflexivity.
Defined.


Lemma counts_invariant_under_row_order_witness :
  let df' := {| columns := ex_columns; rows := reverse (rows ex_table) |} in
  tally decimal ex_table 5 default_score_col
  = tally decimal df' 5 default_score_col
  ∧ analyze_heatmaps decimal (<["a.csv" := ex_table]> ex_fs) "a.csv" 5
      default_score_col
    = analyze_heatmaps decimal (<["a.csv" := df']> ex_fs) "a.csv" 5
        default_score_col
  ∧ ∀ groups groups',
      heatmaps decimal ex_table default_score_col = Ok groups →
      groups ≡ₚ groups' →
      for_each (visit default_score_col 5) groups' (Counters 0 0 0)
      = tally decimal ex_table 5 default_score_col.
Proof.
  apply (counts_invariant_under_row_order decimal ex_fs "a.csv" 5
           default_score_col ex_table
           {| columns := ex_columns; rows := reverse (rows ex_table) |}).
  - reflexivity.
  - symmetry. apply reverse_Permutation.
Defined.

(** * Further properties of the script *)

Section Further.

Variable parse_float : string → option Q.

(** ** The shapes of a run *)



(** ** The threshold *)

Lemma length_filter_impl {A} (P1 P2 : A → Prop) `{!∀ x, Decision (P1 x)}
    `{!∀ x, Decision (P2 x)} (l : list A) :
  (∀ x, x ∈ l → P1 x → P2 x) →
  length (filter P1 l) ≤ length (filter P2 l).
Proof.
  induction l as [|x l IH]; intros Himp; [done|].
  assert (length (filter P1 l) ≤ length (filter P2 l)) as Hl.
  { apply IH. intros y Hy. apply Himp. by right. }
  rewrite !filter_cons. destruct (decide (P1 x)) as [H1|H1].
  - rewrite decide_True by (apply Himp; [by left|done]). simpl. lia.
  - destruct (decide (P2 x)); simpl; lia.
Qed.

Lemma filter_none {A} (P : A → Prop) `{!∀ x, Decision (P x)} (l : list A) :
  (∀ x, x ∈ l → ¬ P x) ↔ filter P l = [].
Proof.
  induction l as [|x l IH].
  { split; [done|]. intros _ x Hx. by apply elem_of_nil in Hx. }
  rewrite filter_cons. destruct (decide (P x)) as [Hx|Hx].
  - split; [|done]. intros Hn. destruct (Hn x); [by left|done].
  - rewrite <- IH. split.
    + intros Hn y Hy. apply Hn. by right.
    + intros Hn y [->|Hy]%elem_of_cons; auto.
Qed.

Lemma filter_all {A} (P : A → Prop) `{!∀ x, Decision (P x)} (l : list A) :
  (∀ x, x ∈ l → P x) → filter P l = l.
Proof.
  induction l as [|x l IH]; intros Hall; [done|].
  rewrite filter_cons_True by (apply Hall; by left).
  f_equal. apply IH. intros y Hy. apply Hall. by right.
Qed.

Lemma tally_Ok_inv df threshold_n score_col st :
  tally parse_float df threshold_n score_col = Ok st →
  ∃ ih ic isc,
    get_loc (columns df) HIGHWAY = Some ih
    ∧ get_loc (columns df) COUNTY = Some ic
    ∧ get_loc (columns df) score_col = Some isc.
Proof.
  intros H. destruct (present_or_absent (columns df) score_col) as [?|Ha];
    [done|].
  unfold tally, heatmaps in H. by rewrite (cleaned_absent _ _ _ Ha) in H.
Qed.

(** X2. The threshold only affects the third counter, and the third counter
    grows with it: for N <= N' the runs count the same groups and the same
    groups without a score below 50, and no fewer groups below N' than
    below N. *)
Theorem threshold_monotone df score_col n n' st st' :
  (n ≤ n')%Z →
  tally parse_float df n score_col = Ok st →
  tally parse_float df n' score_col = Ok st' →
  total_groups st' = total_groups st
  ∧ no_cells_below_50_count st' = no_cells_below_50_count st
  ∧ below_n_threshold_count st ≤ below_n_threshold_count st'.
Proof.
  intros Hn Ht Ht'.
  destruct (tally_Ok_inv _ _ _ _ Ht) as (ih & ic & isc & Hh & Hc & Hs).
  rewrite (tally_present _ _ n _ _ _ _ Hh Hc Hs) in Ht.
  rewrite (tally_present _ _ n' _ _ _ _ Hh Hc Hs) in Ht'.
  simpl in *. injection Ht as <-. injection Ht' as <-. simpl.
  split; [done|]. split; [done|].
  apply length_filter_impl. intros vs _.
  rewrite !below_n_threshold_spec. lia.
Qed.

(** X3. With a threshold of zero or less no group is below it. *)
Theorem threshold_not_positive df score_col n st :
  (n ≤ 0)%Z →
  tally parse_float df n score_col = Ok st →
  below_n_threshold_count st = 0.
Proof.
  intros Hn Ht.
  destruct (tally_Ok_inv _ _ _ _ Ht) as (ih & ic & isc & Hh & Hc & Hs).
  rewrite (tally_present _ _ _ _ _ _ _ Hh Hc Hs) in Ht.
  simpl in *. injection Ht as <-. simpl.
  apply length_zero_iff_nil, filter_none.
  intros vs _. rewrite below_n_threshold_spec. lia.
Qed.

Lemma length_dropna_series values :
  length (dropna_series values) ≤ length values.
Proof.
  unfold dropna_series, omap. induction values as [|c values IH]; [done|].
  simpl. destruct (number c); simpl; lia.
Qed.

Lemma length_grouped_rows ih ic isc rws :
  length (grouped_rows parse_float ih ic isc rws) ≤ length rws.
Proof.
  unfold grouped_rows.
  etrans; [apply length_filter|]. rewrite length_fmap. apply length_filter.
Qed.

Lemma length_group_scores ih ic isc rws vs :
  vs ∈ group_scores parse_float ih ic isc rws → length vs ≤ length rws.
Proof.
  unfold group_scores. intros (k & -> & _)%list_elem_of_fmap. unfold scores.
  etrans; [apply length_dropna_series|]. rewrite length_fmap.
  etrans; [apply length_filter|]. apply length_grouped_rows.
Qed.

(** X4. With a threshold above the number of rows of the table every group
    is below it: the third counter equals the number of groups. *)
Theorem threshold_above_rows df score_col n st :
  (Z.of_nat (length (rows df)) < n)%Z →
  tally parse_float df n score_col = Ok st →
  below_n_threshold_count st = total_groups st.
Proof.
  intros Hn Ht.
  destruct (tally_Ok_inv _ _ _ _ Ht) as (ih & ic & isc & Hh & Hc & Hs).
  rewrite (tally_present _ _ _ _ _ _ _ Hh Hc Hs) in Ht.
  simpl in *. injection Ht as <-. simpl.
  f_equal. apply filter_all. intros vs Hvs%length_group_scores.
  rewrite below_n_threshold_spec. lia.
Qed.

(** ** The groups *)

Lemma keys_of_NoDup idx rws : NoDup (keys_of idx rws).
Proof.
  unfold keys_of. rewrite merge_sort_Permutation. apply NoDup_remove_dups.
Qed.

Lemma elem_of_keys_of_inv idx rws k :
  k ∈ keys_of idx rws → ∃ r, r ∈ rws ∧ key_of idx r = k.
Proof.
  unfold keys_of. rewrite merge_sort_Permutation, elem_of_remove_dups.
  intros (r & -> & Hr)%list_elem_of_fmap. by exists r.
Qed.

Lemma key_of_value cols ih ic r :
  get_loc cols HIGHWAY = Some ih → get_loc cols COUNTY = Some ic →
  key_of [ih; ic] r = [canon (value cols r HIGHWAY); canon (value cols r COUNTY)].
Proof. intros Hh Hc. unfold key_of, value. by rewrite Hh, Hc. Qed.

Lemma fst_group_at cols idx rws (ks : list key) :
  (group_at cols idx rws <$> ks).*1 = ks.
Proof. induction ks as [|k ks IH]; [done|]. simpl. by f_equal. Qed.

Lemma rows_group_at cols idx rws (ks : list key) :
  (λ item, rows item.2) <$> (group_at cols idx rws <$> ks)
  = (λ k, filter (λ r, key_of idx r = k) rws) <$> ks.
Proof. induction ks as [|k ks IH]; [done|]. simpl. by f_equal. Qed.

(** X5. The groups have pairwise distinct keys; each group has the columns
    of the table and at least one row, and every row of a group has the
    key of the group as its highway id and county. *)
Theorem groups_well_formed df score_col groups :
  heatmaps parse_float df score_col = Ok groups →
  NoDup (groups.*1)
  ∧ ∀ k group,
      (k, group) ∈ groups →
      columns group = columns df
      ∧ rows group ≠ []
      ∧ ∀ r, r ∈ rows group →
             [canon (value (columns df) r HIGHWAY);
              canon (value (columns df) r COUNTY)] = k.
Proof.
  intros H. destruct (heatmaps_Ok_inv _ _ _ _ H) as (ih & ic & isc & Hh & Hc & Hs).
  rewrite (heatmaps_present _ _ _ _ _ _ Hh Hc Hs) in H. injection H as <-.
  split.
  - rewrite fst_group_at. apply keys_of_NoDup.
  - intros k group (k' & [= -> ->] & Hk)%list_elem_of_fmap. simpl.
    split; [done|]. split.
    + apply elem_of_keys_of_inv in Hk as (r & Hr & Hkr).
      intros Hnil. apply (elem_of_nil r). rewrite <- Hnil.
      by apply list_elem_of_filter.
    + intros r [Hr _]%list_elem_of_filter.
      by rewrite <- (key_of_value _ _ _ _ Hh Hc).
Qed.

Lemma filter_split {A} (P1 P2 : A → Prop) `{!∀ x, Decision (P1 x)}
    `{!∀ x, Decision (P2 x)} (l : list A) :
  (∀ x, P1 x → P2 x → False) →
  filter P1 l ++ filter P2 l ≡ₚ filter (λ x, P1 x ∨ P2 x) l.
Proof.
  intros Hdis. induction l as [|x l IH]; [done|].
  rewrite !filter_cons.
  destruct (decide (P1 x)) as [H1|H1], (decide (P2 x)) as [H2|H2].
  - destruct (Hdis x H1 H2).
  - rewrite decide_True by tauto. simpl. by rewrite IH.
  - rewrite decide_True by tauto. rewrite <- Permutation_middle. by rewrite IH.
  - rewrite decide_False by tauto. done.
Qed.

Lemma concat_filter_keys {A K} `{EqDecision K} (f : A → K) (ks : list K)
    (l : list A) :
  NoDup ks →
  concat ((λ k, filter (λ x, f x = k) l) <$> ks) ≡ₚ filter (λ x, f x ∈ ks) l.
Proof.
  induction 1 as [|k ks Hk _ IH]; simpl.
  - symmetry. apply Permutation_nil_r, filter_none.
    intros x _ Hx. by apply elem_of_nil in Hx.
  - rewrite IH, filter_split by (by intros x <- Hx).
    erewrite (list_filter_iff _ (λ x, f x ∈ k :: ks)); [done|].
    intros x. by rewrite elem_of_cons.
Qed.

(** X6. The groups share out the cleaned rows that have both keys: taken
    together the rows of the groups are these rows, each once; each group
    keeps its rows in table order; and there are no more groups than rows
    in the table. *)
Theorem groups_cover_keyed_rows df score_col cdf groups :
  cleaned parse_float df score_col = Ok cdf →
  heatmaps parse_float df score_col = Ok groups →
  concat ((λ item, rows item.2) <$> groups)
  ≡ₚ filter (λ r, value (columns df) r HIGHWAY ≠ NaN
                  ∧ value (columns df) r COUNTY ≠ NaN) (rows cdf)
  ∧ (∀ item, item ∈ groups → rows item.2 `sublist_of` rows cdf)
  ∧ length groups ≤ length (rows df).
Proof.
  intros Hcl H.
  destruct (heatmaps_Ok_inv _ _ _ _ H) as (ih & ic & isc & Hh & Hc & Hs).
  rewrite (heatmaps_present _ _ _ _ _ _ Hh Hc Hs) in H. injection H as <-.
  rewrite (cleaned_present _ _ _ _ _ _ Hh Hc Hs) in Hcl. injection Hcl as <-.
  simpl. set (R := grouped_rows parse_float ih ic isc (rows df)).
  split; [|split].
  - rewrite rows_group_at.
    rewrite concat_filter_keys by apply keys_of_NoDup.
    rewrite (filter_all (λ r, key_of [ih; ic] r ∈ keys_of [ih; ic] R) R)
      by (intros r Hr; by apply elem_of_keys_of).
    assert (∀ l, filter (λ r, value (columns df) r HIGHWAY ≠ NaN
                              ∧ value (columns df) r COUNTY ≠ NaN) l
                 = filter (λ r, notna_at [ih; ic] r = true) l) as ->; [|done].
    intros l. apply list_filter_iff. intros r.
    rewrite notna_at_keys. unfold value. by rewrite Hh, Hc.
  - intros item (k & -> & _)%list_elem_of_fmap. simpl.
    etrans; [apply sublist_filter|]. apply sublist_filter.
  - rewrite length_fmap.
    trans (length (key_of [ih; ic] <$> R));
      [|rewrite length_fmap; apply length_grouped_rows].
    apply submseteq_length, NoDup_submseteq; [apply keys_of_NoDup|].
    intros k (r & Hr & <-)%elem_of_keys_of_inv.
    by apply list_elem_of_fmap_2.
Qed.

(** X7. The score column of every group holds numbers and nulls only: no
    text reaches the comparison with 50. *)
Theorem group_scores_numeric df score_col groups item :
  heatmaps parse_float df score_col = Ok groups →
  item ∈ groups →
  ∃ values,
    getitem item.2 score_col = Ok values
    ∧ Forall (λ c, c = NaN ∨ ∃ x, c = Num x) values.
Proof.
  intros H Hitem.
  destruct (heatmaps_Ok_inv _ _ _ _ H) as (ih & ic & isc & Hh & Hc & Hs).
  rewrite (heatmaps_present _ _ _ _ _ _ Hh Hc Hs) in H. injection H as <-.
  apply list_elem_of_fmap in Hitem as (k & -> & _).
  eexists. split.
  - unfold getitem; simpl. by rewrite Hs.
  - apply Forall_fmap, Forall_forall. intros r [_ Hr]%list_elem_of_filter.
    apply grouped_rows_no_text in Hr. simpl.
    destruct (iat r isc); [by left|right; by eexists|done].
Qed.

(** ** No group *)

Lemma keys_of_nil idx rws : keys_of idx rws = [] ↔ rws = [].
Proof.
  split; [|by intros ->].
  destruct rws as [|r rws]; [done|]. intros Hk.
  pose proof (elem_of_keys_of idx (r :: rws) r ltac:(by left)) as Hr.
  rewrite Hk in Hr. by apply elem_of_nil in Hr.
Qed.

Lemma iat_coerce p i row : iat (coerce p i row) i = to_numeric_cell p (iat row i).
Proof.
  unfold coerce, iat. destruct (decide (i < length row)) as [Hi|Hi].
  - by rewrite list_lookup_insert_eq.
  - rewrite list_insert_ge by lia. by rewrite lookup_ge_None_2 by lia.
Qed.

Lemma iat_coerce_ne p i j row : i ≠ j → iat (coerce p i row) j = iat row j.
Proof. intros Hne. unfold coerce. by apply iat_insert_ne. Qed.

Lemma grouped_rows_nil ih ic isc rws :
  isc ≠ ih → isc ≠ ic →
  grouped_rows parse_float ih ic isc rws = []
  ↔ ∀ r, r ∈ rws → iat r ih = NaN ∨ iat r ic = NaN.
Proof.
  intros Hh Hc. unfold grouped_rows.
  rewrite (filter_all _ (coerce parse_float isc <$> _)).
  - split.
    + intros Hnil%fmap_nil_inv r Hr.
      pose proof (proj2 (filter_none _ _) Hnil r Hr) as Hn.
      rewrite notna_at_keys in Hn.
      destruct (iat r ih), (iat r ic); auto; destruct Hn; done.
    + intros Hall.
      assert (filter (λ r, notna_at [ih; ic] r = true) rws = []) as ->;
        [|done].
      apply filter_none. intros r Hr.
      rewrite notna_at_keys. destruct (Hall r Hr) as [-> | ->]; tauto.
  - intros c (r & -> & [Hr _]%list_elem_of_filter)%list_elem_of_fmap.
    apply notna_at_keys in Hr. apply notna_at_keys.
    by rewrite !iat_coerce_ne.
Qed.

Lemma present_indices cols score_col :
  missing cols [HIGHWAY; COUNTY; score_col] = [] →
  ∃ ih ic isc,
    get_loc cols HIGHWAY = Some ih ∧ get_loc cols COUNTY = Some ic
    ∧ get_loc cols score_col = Some isc
    ∧ (ih = isc ↔ HIGHWAY = score_col) ∧ (ic = isc ↔ COUNTY = score_col).
Proof.
  intros Hm. pose proof (proj1 (missing_nil _ _) Hm) as Hp.
  destruct (Hp HIGHWAY) as [ih Hh]; [by left|].
  destruct (Hp COUNTY) as [ic Hc]; [by right; left|].
  destruct (Hp score_col) as [isc Hs]; [by do 2 right; left|].
  exists ih, ic, isc. do 3 (split; [done|]).
  split; (split; [intros ->; eauto using get_loc_inj|intros Heq]);
    rewrite Heq in *; congruence.
Qed.

(** X8. On a loaded table with the three columns, the score column being
    none of the key columns, the run ends in the division by zero exactly
    when no row has both a highway id and a county; an empty table is one
    such case. *)
Theorem division_by_zero_iff_no_keyed_row fs file_path threshold_n score_col
    df :
  fs !! file_path = Some df →
  missing (columns df) [HIGHWAY; COUNTY; score_col] = [] →
  score_col ≠ HIGHWAY → score_col ≠ COUNTY →
  outcome (analyze_heatmaps parse_float fs file_path threshold_n score_col)
  = Raise ZeroDivisionError
  ↔ ∀ r, r ∈ rows df →
         value (columns df) r HIGHWAY = NaN ∨ value (columns df) r COUNTY = NaN.
Proof.
  intros Hf Hm Hnh Hnc.
  destruct (present_indices _ _ Hm)
    as (ih & ic & isc & Hh & Hc & Hs & Hih & Hic).
  assert (isc ≠ ih) as Hsh by (intros ->; apply Hnh; symmetry; by apply Hih).
  assert (isc ≠ ic) as Hsc by (intros ->; apply Hnc; symmetry; by apply Hic).
  pose proof (heatmaps_present parse_float _ _ _ _ _ Hh Hc Hs) as Hg.
  destruct (tally_bounds _ _ threshold_n _ _ Hg) as (st & Ht & Hl & _).
  rewrite (analyze_grouped _ _ _ _ _ _ _ _ Hf Hg Ht). unfold outcome at 1.
  cbn [snd]. rewrite length_fmap in Hl.
  trans (grouped_rows parse_float ih ic isc (rows df) = []).
  - rewrite <- (keys_of_nil [ih; ic]), <- length_zero_iff_nil, <- Hl.
    destruct (total_groups st) as [|t] eqn:Et.
    + by rewrite summary_zero.
    + rewrite summary_pos by lia. done.
  - rewrite (grouped_rows_nil _ _ _ _ Hsh Hsc). unfold value.
    by rewrite Hh, Hc.
Qed.

(** ** What the run depends on *)

Lemma scores_agree isc isc' rws rws' :
  Forall2 (λ r r', iat r isc = iat r' isc') rws rws' →
  scores isc rws = scores isc' rws'.
Proof.
  unfold scores, dropna_series. induction 1 as [|r r' rws rws' Hr _ IH];
    [done|].
  rewrite !fmap_cons. simpl. rewrite Hr. unfold omap in IH. by rewrite IH.
Qed.

Lemma group_scores_agree p p' ih ic isc ih' ic' isc' rws rws' :
  (ih = isc ↔ ih' = isc') → (ic = isc ↔ ic' = isc') →
  Forall2 (λ r r', iat r ih = iat r' ih' ∧ iat r ic = iat r' ic'
                   ∧ to_numeric_cell p (iat r isc)
                     = to_numeric_cell p' (iat r' isc')) rws rws' →
  group_scores p ih ic isc rws = group_scores p' ih' ic' isc' rws'.
Proof.
  intros Hih Hic Hrel.
  set (rel := λ c c' : list cell,
         iat c ih = iat c' ih' ∧ iat c ic = iat c' ic'
         ∧ iat c isc = iat c' isc').
  assert (Forall2 rel (grouped_rows p ih ic isc rws)
            (grouped_rows p' ih' ic' isc' rws')) as HR.
  { unfold grouped_rows. apply Forall2_filter.
    { intros c c' (Hh & Hc & _). rewrite !notna_at_keys. by rewrite Hh, Hc. }
    apply Forall2_fmap.
    assert (Forall2 (λ r r', iat r ih = iat r' ih' ∧ iat r ic = iat r' ic'
                             ∧ to_numeric_cell p (iat r isc)
                               = to_numeric_cell p' (iat r' isc'))
              (filter (λ r, notna_at [ih; ic] r = true) rws)
              (filter (λ r, notna_at [ih'; ic'] r = true) rws')) as Hkept.
    { apply Forall2_filter; [|done].
      intros r r' (Hh & Hc & _). rewrite !notna_at_keys. by rewrite Hh, Hc. }
    eapply Forall2_impl; [exact Hkept|].
    intros r r' (Hh & Hc & Hs). unfold rel.
    rewrite !iat_coerce. split; [|split; [|done]].
    - destruct (decide (ih = isc)) as [->|Hne].
      + rewrite (proj1 Hih eq_refl). by rewrite !iat_coerce.
      + rewrite !iat_coerce_ne by (try done; intros ->; tauto). done.
    - destruct (decide (ic = isc)) as [->|Hne].
      + rewrite (proj1 Hic eq_refl). by rewrite !iat_coerce.
      + rewrite !iat_coerce_ne by (try done; intros ->; tauto). done. }
  assert (key_of [ih; ic] <$> grouped_rows p ih ic isc rws
          = key_of [ih'; ic'] <$> grouped_rows p' ih' ic' isc' rws') as Hkeys.
  { clear -HR. induction HR as [|c c' l l' (Hh & Hc & _) _ IH]; [done|].
    rewrite !fmap_cons, IH. unfold key_of. simpl. by rewrite Hh, Hc. }
  unfold group_scores, keys_of. rewrite Hkeys.
  apply list_fmap_ext. intros _ k _. apply scores_agree.
  assert (Forall2 rel
            (filter (λ r, key_of [ih; ic] r = k)
               (grouped_rows p ih ic isc rws))
            (filter (λ r, key_of [ih'; ic'] r = k)
               (grouped_rows p' ih' ic' isc' rws'))) as Hgroup.
  { apply Forall2_filter; [|done].
    intros c c' (Hh & Hc & _). unfold key_of. simpl. by rewrite Hh, Hc. }
  eapply Forall2_impl; [exact Hgroup|]. by intros c c' (_ & _ & Hs).
Qed.

Lemma run_agree p p' fs fs' file_path threshold_n score_col df df'
    ih ic isc ih' ic' isc' :
  fs !! file_path = Some df → fs' !! file_path = Some df' →
  get_loc (columns df) HIGHWAY = Some ih →
  get_loc (columns df) COUNTY = Some ic →
  get_loc (columns df) score_col = Some isc →
  get_loc (columns df') HIGHWAY = Some ih' →
  get_loc (columns df') COUNTY = Some ic' →
  get_loc (columns df') score_col = Some isc' →
  group_scores p ih ic isc (rows df) = group_scores p' ih' ic' isc' (rows df') →
  tally p df threshold_n score_col = tally p' df' threshold_n score_col
  ∧ analyze_heatmaps p fs file_path threshold_n score_col
    = analyze_heatmaps p' fs' file_path threshold_n score_col.
Proof.
  intros Hf Hf' Hh Hc Hs Hh' Hc' Hs' Hgs.
  pose proof (tally_present p _ threshold_n _ _ _ _ Hh Hc Hs) as Ht.
  pose proof (tally_present p' _ threshold_n _ _ _ _ Hh' Hc' Hs') as Ht'.
  simpl in Ht, Ht'. rewrite <- Hgs in Ht'.
  split; [by rewrite Ht, Ht'|].
  pose proof (heatmaps_present p _ _ _ _ _ Hh Hc Hs) as Hg.
  pose proof (heatmaps_present p' _ _ _ _ _ Hh' Hc' Hs') as Hg'.
  rewrite (analyze_grouped _ _ _ _ _ _ _ _ Hf Hg Ht).
  rewrite (analyze_grouped _ _ _ _ _ _ _ _ Hf' Hg' Ht').
  rewrite !length_fmap.
  apply (f_equal length) in Hgs. unfold group_scores in Hgs.
  rewrite !length_fmap in Hgs. by rewrite Hgs.
Qed.

(** X9. The run reads nothing but the two key columns and the score
    column: two tables that have them, among whatever other columns, and
    whose rows agree on them one by one, give the same counters and the
    same run. *)
Theorem other_columns_ignored fs file_path threshold_n score_col df df' :
  missing (columns df) [HIGHWAY; COUNTY; score_col] = [] →
  missing (columns df') [HIGHWAY; COUNTY; score_col] = [] →
  Forall2 (λ r r', ∀ label, label ∈ [HIGHWAY; COUNTY; score_col] →
                     value (columns df) r label = value (columns df') r' label)
    (rows df) (rows df') →
  tally parse_float df threshold_n score_col
  = tally parse_float df' threshold_n score_col
  ∧ analyze_heatmaps parse_float (<[file_path := df]> fs) file_path
      threshold_n score_col
    = analyze_heatmaps parse_float (<[file_path := df']> fs) file_path
        threshold_n score_col.
Proof.
  intros Hm Hm' Hrows.
  destruct (present_indices _ _ Hm)
    as (ih & ic & isc & Hh & Hc & Hs & Hih & Hic).
  destruct (present_indices _ _ Hm')
    as (ih' & ic' & isc' & Hh' & Hc' & Hs' & Hih' & Hic').
  apply (run_agree _ _ _ _ _ _ _ df df' ih ic isc ih' ic' isc');
    [apply lookup_insert_eq|apply lookup_insert_eq|done..|].
  apply group_scores_agree; [tauto|tauto|].
  eapply Forall2_impl; [exact Hrows|]. intros r r' Hr.
  pose proof (Hr HIGHWAY ltac:(by left)) as H1.
  pose proof (Hr COUNTY ltac:(by right; left)) as H2.
  pose proof (Hr score_col ltac:(by do 2 right; left)) as H3.
  unfold value in H1, H2, H3.
  rewrite Hh, Hh' in H1. rewrite Hc, Hc' in H2. rewrite Hs, Hs' in H3.
  by rewrite H1, H2, H3.
Qed.


(** ** Tables put end to end *)

Lemma grouped_rows_app ih ic isc rws1 rws2 :
  grouped_rows parse_float ih ic isc (rws1 ++ rws2)
  = grouped_rows parse_float ih ic isc rws1
    ++ grouped_rows parse_float ih ic isc rws2.
Proof. unfold grouped_rows. by rewrite filter_app, fmap_app, filter_app. Qed.

Lemma keys_of_app idx rws1 rws2 :
  (∀ k, k ∈ keys_of idx rws1 → k ∈ keys_of idx rws2 → False) →
  keys_of idx (rws1 ++ rws2) ≡ₚ keys_of idx rws1 ++ keys_of idx rws2.
Proof.
  intros Hdis. apply NoDup_Permutation.
  - apply keys_of_NoDup.
  - apply NoDup_app. split; [apply keys_of_NoDup|].
    split; [|apply keys_of_NoDup]. intros k H1 H2. by apply (Hdis k).
  - intros k. rewrite elem_of_app. split.
    + intros (r & [Hr|Hr]%elem_of_app & <-)%elem_of_keys_of_inv;
        [left|right]; by apply elem_of_keys_of.
    + intros [(r & Hr & <-)%elem_of_keys_of_inv
             |(r & Hr & <-)%elem_of_keys_of_inv];
        apply elem_of_keys_of, elem_of_app; auto.
Qed.

Lemma filter_other_key idx rws k :
  k ∉ keys_of idx rws → filter (λ r, key_of idx r = k) rws = [].
Proof.
  intros Hk. apply filter_none. intros r Hr <-.
  by apply Hk, elem_of_keys_of.
Qed.

Lemma group_scores_app ih ic isc rws1 rws2 :
  (∀ k, k ∈ keys_of [ih; ic] (grouped_rows parse_float ih ic isc rws1) →
        k ∈ keys_of [ih; ic] (grouped_rows parse_float ih ic isc rws2) →
        False) →
  group_scores parse_float ih ic isc (rws1 ++ rws2)
  ≡ₚ group_scores parse_float ih ic isc rws1
     ++ group_scores parse_float ih ic isc rws2.
Proof.
  intros Hdis. unfold group_scores. rewrite grouped_rows_app.
  set (R1 := grouped_rows parse_float ih ic isc rws1) in *.
  set (R2 := grouped_rows parse_float ih ic isc rws2) in *.
  rewrite (keys_of_app _ _ _ Hdis), fmap_app.
  assert (∀ k, k ∈ keys_of [ih; ic] R1 →
               scores isc (filter (λ r, key_of [ih; ic] r = k) (R1 ++ R2))
               = scores isc (filter (λ r, key_of [ih; ic] r = k) R1)) as H1.
  { intros k Hk.
    rewrite filter_app, (filter_other_key _ R2 k), app_nil_r; [done|].
    intros Hk2. by apply (Hdis k). }
  assert (∀ k, k ∈ keys_of [ih; ic] R2 →
               scores isc (filter (λ r, key_of [ih; ic] r = k) (R1 ++ R2))
               = scores isc (filter (λ r, key_of [ih; ic] r = k) R2)) as H2.
  { intros k Hk.
    rewrite filter_app, (filter_other_key _ R1 k); [done|].
    intros Hk1. by apply (Hdis k). }
  rewrite (list_fmap_ext _ _ (keys_of [ih; ic] R1)
             (λ i k Hk, H1 k (list_elem_of_lookup_2 _ i k Hk))).
  rewrite (list_fmap_ext _ _ (keys_of [ih; ic] R2)
             (λ i k Hk, H2 k (list_elem_of_lookup_2 _ i k Hk))).
  done.
Qed.

(** X11. The counters add up over tables that share no highway-county
    pair: for two tables with the same columns whose groups have different
    keys, each counter of the table made of the rows of the first followed
    by the rows of the second is the sum of the two counters. *)
Theorem counters_add_over_disjoint_tables cols rows1 rows2 threshold_n
    score_col groups1 groups2 st1 st2 :
  heatmaps parse_float {| columns := cols; rows := rows1 |} score_col
  = Ok groups1 →
  heatmaps parse_float {| columns := cols; rows := rows2 |} score_col
  = Ok groups2 →
  (∀ k, k ∈ groups1.*1 → k ∈ groups2.*1 → False) →
  tally parse_float {| columns := cols; rows := rows1 |} threshold_n score_col
  = Ok st1 →
  tally parse_float {| columns := cols; rows := rows2 |} threshold_n score_col
  = Ok st2 →
  tally parse_float {| columns := cols; rows := rows1 ++ rows2 |} threshold_n
    score_col
  = Ok (Counters
          (total_groups st1 + total_groups st2)
          (no_cells_below_50_count st1 + no_cells_below_50_count st2)
          (below_n_threshold_count st1 + below_n_threshold_count st2)).
Proof.
  intros Hg1 Hg2 Hdis Ht1 Ht2.
  destruct (heatmaps_Ok_inv _ _ _ _ Hg1) as (ih & ic & isc & Hh & Hc & Hs).
  simpl in Hh, Hc, Hs.
  rewrite (heatmaps_present _ _ _ ih ic isc) in Hg1 by done.
  rewrite (heatmaps_present _ _ _ ih ic isc) in Hg2 by done.
  injection Hg1 as <-. injection Hg2 as <-. simpl in Hdis.
  rewrite !fst_group_at in Hdis.
  rewrite (tally_present _ _ _ _ ih ic isc) in Ht1 by done.
  rewrite (tally_present _ _ _ _ ih ic isc) in Ht2 by done.
  rewrite (tally_present _ _ _ _ ih ic isc) by done.
  simpl in *. injection Ht1 as <-. injection Ht2 as <-. simpl.
  pose proof (group_scores_app _ _ _ _ _ Hdis) as Hp.
  rewrite !Hp, !filter_app, !length_app. done.
Qed.

End Further.

(** ** The further properties on the sample tables *)

Lemma threshold_monotone_witness :
  total_groups (Counters 2 1 2) = total_groups (Counters 2 1 1)
  ∧ no_cells_below_50_count (Counters 2 1 2)
    = no_cells_below_50_count (Counters 2 1 1)
  ∧ below_n_threshold_count (Counters 2 1 1)
    ≤ below_n_threshold_count (Counters 2 1 2).
Proof.
  apply (threshold_monotone decimal ex_table default_score_col 2 5).
  - lia.
  - vm_compute. reflexivity.
  - vm_compute. reflexivity.
Defined.

Lemma threshold_not_positive_witness :
  below_n_threshold_count (Counters 2 1 0) = 0.
Proof.
  apply (threshold_not_positive decimal ex_table default_score_col 0).
  - lia.
  - vm_compute. reflexivity.
Defined.

Lemma threshold_above_rows_witness :
  below_n_threshold_count (Counters 2 1 2) = total_groups (Counters 2 1 2).
Proof.
  apply (threshold_above_rows decimal ex_table default_score_col 6).
  - simpl. lia.
  - vm_compute. reflexivity.
Defined.

Lemma groups_well_formed_witness :
  NoDup (ex_groups.*1)
  ∧ ∀ k group,
      (k, group) ∈ ex_groups →
      columns group = columns ex_table
      ∧ rows group ≠ []
      ∧ ∀ r, r ∈ rows group →
             [canon (value (columns ex_table) r HIGHWAY);
              canon (value (columns ex_table) r COUNTY)] = k.
Proof.
  apply (groups_well_formed decimal ex_table default_score_col ex_groups).
  vm_compute. reflexivity.
Defined.

Lemma groups_cover_keyed_rows_witness :
  let cdf := {| columns := ex_columns;
                rows := [ [Str "IH0035"; Str "BEXAR"; Num 10];
                          [Str "IH0035"; Str "BEXAR"; Num 60];
                          [Str "IH0010"; Str "BEXAR"; NaN];
                          [Str "IH0010"; Str "BEXAR"; Num 50] ] |} in
  concat ((λ item, rows item.2) <$> ex_groups)
  ≡ₚ filter (λ r, value (columns ex_table) r HIGHWAY ≠ NaN
                  ∧ value (columns ex_table) r COUNTY ≠ NaN) (rows cdf)
  ∧ (∀ item, item ∈ ex_groups → rows item.2 `sublist_of` rows cdf)
  ∧ length ex_groups ≤ length (rows ex_table).
Proof.
  apply (groups_cover_keyed_rows decimal ex_table default_score_col).
  - vm_compute. reflexivity.
  - vm_compute. reflexivity.
Defined.

Lemma group_scores_numeric_witness :
  ∃ values,
    getitem
      ([Str "IH0010"; Str "BEXAR"],
       {| columns := ex_columns;
          rows := [ [Str "IH0010"; Str "BEXAR"; NaN];
                    [Str "IH0010"; Str "BEXAR"; Num 50] ] |}).2
      default_score_col = Ok values
    ∧ Forall (λ c, c = NaN ∨ ∃ x, c = Num x) values.
Proof.
  apply (group_scores_numeric decimal ex_table default_score_col ex_groups).
  - vm_compute. reflexivity.
  - left.
Defined.

Lemma division_by_zero_iff_no_keyed_row_witness :
  outcome (analyze_heatmaps decimal ex_fs "keyless.csv" 5 default_score_col)
  = Raise ZeroDivisionError
  ↔ ∀ r, r ∈ rows ex_keyless →
         value (columns ex_keyless) r HIGHWAY = NaN
         ∨ value (columns ex_keyless) r COUNTY = NaN.
Proof.
  apply (division_by_zero_iff_no_keyed_row decimal ex_fs "keyless.csv" 5
           default_score_col ex_keyless).
  - reflexivity.
  - reflexivity.
  - discriminate.
  - discriminate.
Defined.

Lemma other_columns_ignored_witness :
  tally decimal ex_table 5 default_score_col
  = tally decimal ex_wide 5 default_score_col
  ∧ analyze_heatmaps decimal (<["a.csv" := ex_table]> ex_fs) "a.csv" 5
      default_score_col
    = analyze_heatmaps decimal (<["a.csv" := ex_wide]> ex_fs) "a.csv" 5
        default_score_col.
Proof.
  apply (other_columns_ignored decimal ex_fs "a.csv" 5 default_score_col
           ex_table ex_wide).
  - reflexivity.
  - reflexivity.
  - unfold ex_table, ex_wide. simpl.
    repeat (constructor;
            [intros label Hl;
             repeat (apply elem_of_cons in Hl as [->|Hl]; [reflexivity|]);
             by apply elem_of_nil in Hl|]).
    constructor.
Defined.


Lemma counters_add_over_disjoint_tables_witness :
  tally decimal
    {| columns := ex_columns;
       rows := [ [Str "IH0035"; Str "BEXAR"; Num 10];
                 [Str "IH0035"; Str "BEXAR"; Num 60] ]
               ++ [ [Str "IH0010"; Str "BEXAR"; Str "n/a"];
                    [Str "IH0010"; Str "BEXAR"; Str "50"] ] |}
    5 default_score_col
  = Ok (Counters
          (total_groups (Counters 1 0 1) + total_groups (Counters 1 1 1))
          (no_cells_below_50_count (Counters 1 0 1)
           + no_cells_below_50_count (Counters 1 1 1))
          (below_n_threshold_count (Counters 1 0 1)
           + below_n_threshold_count (Counters 1 1 1))).
Proof.
  apply (counters_add_over_disjoint_tables decimal ex_columns
           [ [Str "IH0035"; Str "BEXAR"; Num 10];
             [Str "IH0035"; Str "BEXAR"; Num 60] ]
           [ [Str "IH0010"; Str "BEXAR"; Str "n/a"];
             [Str "IH0010"; Str "BEXAR"; Str "50"] ]
           5 default_score_col
           [ ([Str "IH0035"; Str "BEXAR"],
              {| columns := ex_columns;
                 rows := [ [Str "IH0035"; Str "BEXAR"; Num 10];
                           [Str "IH0035"; Str "BEXAR"; Num 60] ] |}) ]
           [ ([Str "IH0010"; Str "BEXAR"],
              {| columns := ex_columns;
                 rows := [ [Str "IH0010"; Str "BEXAR"; NaN];
                           [Str "IH0010"; Str "BEXAR"; Num 50] ] |}) ]).
  - vm_compute. reflexivity.
  - vm_compute. reflexivity.
  - intros k Hk1 Hk2. simpl in Hk1, Hk2.
    apply list_elem_of_singleton in Hk1 as ->.
    apply list_elem_of_singleton in Hk2. discriminate Hk2.
  - vm_compute. reflexivity.
  - vm_compute. reflexivity.
Defined.
